(** * The vg command module (object creation and manipulation commands)

    A shallow embedding of [src/p5/02_M/M_1_4_01/sketch.js] (the part after
    the first document separator: the module that builds the [vg] object)
    and the properties of it that the specification states; then more
    properties of the commands, and the two sketches: the noise landscape
    that the same file starts with, and the waves of
    [src/artworks/perlin_wave/perlin_wave.pde].

    Conventions of the embedding.

    - A JavaScript number is a rational ([Q]): arithmetic is exact.  A run
      that would compute with a value that is not a finite number (an
      absent coordinate read as a number, a division by zero) ends in the
      outcome [NonFinite], about which the model says nothing more.
      No operation rounds and no result is too large: a property that
      is stated of these numbers is one that rounding does not decide,
      or says that the arithmetic is exact.  Where rounding decides, the
      code is embedded a second time over the binary64 numbers the
      program runs on (the module [binary64]).
    - A call either returns, or throws: [result] carries both, and [bind]
      stops at the first throw, as a JavaScript exception does.
    - The objects the module receives are the ones it probes for: objects
      with [x] and [y] ([VPoint]), Rects ([x], [y], [width], [height], and
      the methods [unite] and [contains]: [VRect]), objects with [r], [g]
      and [b] ([VColor]), Paths (a [commands] array and the Path methods),
      Groups (a [shapes] array and the Group methods), arrays, [undefined]
      and [null].  A point, a rect and a color have no [bounds] method,
      no [commands] and no [shapes]; an array has none of the methods.
    - The classes required from other files ([objects/*], [util/*]) are not
      part of the embedded file.  What the module needs from them is either
      modelled from the specification (marked as such) or taken as a field
      of the class [Collaborators]. *)

From Stdlib Require Import QArith Qminmax Qround Qabs Lqa ZArith Lia.
From Stdlib Require Import List String Bool Permutation Sorted.
From Stdlib Require PrimFloat.
Import ListNotations.

Set Implicit Arguments.
Open Scope Q_scope.

(* ================================================================== *)
(** ** Outcomes of a call *)

Inductive js_error : Type :=
| TypeError                 (* a property of undefined or null is read,
                               or something that is no function is called *)
| RangeError                (* Invalid array length *)
| Error (msg : string).     (* throw new Error(msg) *)

Inductive result (A : Type) : Type :=
| Ok (a : A)
| Throw (e : js_error)
| NonFinite.

Arguments Ok {A} a.
Arguments Throw {A} e.
Arguments NonFinite {A}.

Definition bind {A B : Type} (m : result A) (k : A -> result B) : result B :=
  match m with
  | Ok a => k a
  | Throw e => Throw e
  | NonFinite => NonFinite
  end.

Declare Scope js_scope.
Delimit Scope js_scope with js.
Notation "x <- m ;; k" := (bind m (fun x => k))
  (at level 61, m at next level, right associativity) : js_scope.
Open Scope js_scope.

(** A [for] loop that fills [out[i] = f(in[i])] for [i = 0 .. length-1]:
    the first element that throws ends the loop. *)
Definition mapM {A B : Type} (f : A -> result B) : list A -> result (list B) :=
  fix go (l : list A) : result (list B) :=
    match l with
    | [] => Ok []
    | a :: t => b <- f a ;; bs <- go t ;; Ok (b :: bs)
    end.

(** Comparisons of numbers, as booleans. *)
Definition gtb (a b : Q) : bool := negb (Qle_bool a b).
Definition geb (a b : Q) : bool := Qle_bool b a.
Definition ltb (a b : Q) : bool := negb (Qle_bool b a).

(** A number that is needed but absent. *)
Definition number (o : option Q) : result Q :=
  match o with Some q => Ok q | None => NonFinite end.

(* ================================================================== *)
(** ** Data *)

Module bezier.

(** The command tags of [util/bezier]. *)
Inductive tag : Type := MOVETO | LINETO | QUADTO | CURVETO | CLOSE.

Definition eqb (a b : tag) : bool :=
  match a, b with
  | MOVETO, MOVETO | LINETO, LINETO | QUADTO, QUADTO
  | CURVETO, CURVETO | CLOSE, CLOSE => true
  | _, _ => false
  end.

End bezier.

(** A path command: an object with a [type] and, depending on how it was
    made, the fields [x], [y], [x1], [y1], [x2], [y2]. *)
Record command : Type := Cmd {
  ctype : bezier.tag;
  cx : option Q;  cy : option Q;
  cx1 : option Q; cy1 : option Q;
  cx2 : option Q; cy2 : option Q
}.

Definition MoveTo (x y : Q) : command :=
  Cmd bezier.MOVETO (Some x) (Some y) None None None None.
Definition LineTo (x y : Q) : command :=
  Cmd bezier.LINETO (Some x) (Some y) None None None None.
Definition QuadTo (x1 y1 x y : Q) : command :=
  Cmd bezier.QUADTO (Some x) (Some y) (Some x1) (Some y1) None None.
Definition CurveTo (x1 y1 x2 y2 x y : Q) : command :=
  Cmd bezier.CURVETO (Some x) (Some y) (Some x1) (Some y1) (Some x2) (Some y2).
Definition Close : command :=
  Cmd bezier.CLOSE None None None None None None.

Record color : Type := Color { red : Q; green : Q; blue : Q; alpha : Q }.

Record point : Type := Point { px : Q; py : Q }.

Record rect : Type := Rect { rx : Q; ry : Q; rwidth : Q; rheight : Q }.

(** A Path: its commands and the three attributes the module copies. *)
Record path : Type := Path {
  commands : list command;
  fill : option color;
  stroke : option color;
  strokeWidth : option Q
}.

#[warnings="-register-all"]
Inductive value : Type :=
| VUndefined
| VNull
| VPoint (p : point)
| VRect (r : rect)
| VColor (c : color)
| VPath (p : path)
| VGroup (shapes : list value)
| VArray (items : list value).

(** Induction on a value, with the property at hand for every element of
    a Group and of an array. *)
Section ValueInduction.
Variable P : value -> Prop.
Hypothesis Hundefined : P VUndefined.
Hypothesis Hnull : P VNull.
Hypothesis Hpoint : forall p, P (VPoint p).
Hypothesis Hrect : forall r, P (VRect r).
Hypothesis Hcolor : forall c, P (VColor c).
Hypothesis Hpath : forall p, P (VPath p).
Hypothesis Hgroup : forall shapes, Forall P shapes -> P (VGroup shapes).
Hypothesis Harray : forall items, Forall P items -> P (VArray items).

Fixpoint value_induction (v : value) : P v :=
  let all :=
    fix all (l : list value) : Forall P l :=
      match l with
      | [] => Forall_nil P
      | x :: t => Forall_cons x (value_induction x) (all t)
      end in
  match v with
  | VUndefined => Hundefined
  | VNull => Hnull
  | VPoint p => Hpoint p
  | VRect r => Hrect r
  | VColor c => Hcolor c
  | VPath p => Hpath p
  | VGroup shapes => Hgroup (all shapes)
  | VArray items => Harray (all items)
  end.

End ValueInduction.

(** [!v]: of the values above only [undefined] and [null] are falsy. *)
Definition falsy (v : value) : bool :=
  match v with VUndefined | VNull => true | _ => false end.

(** Reading a property of [undefined] or [null] throws a TypeError. *)
Definition object (v : value) : result value :=
  match v with VUndefined | VNull => Throw TypeError | _ => Ok v end.

(** [o.x !== undefined && o.y !== undefined] *)
Definition has_xy (o : value) : result bool :=
  o <- object o ;;
  Ok (match o with VPoint _ | VRect _ => true | _ => false end).

(** [o.r !== undefined && o.g !== undefined && o.b !== undefined] *)
Definition has_rgb (o : value) : result bool :=
  o <- object o ;;
  Ok (match o with VColor _ => true | _ => false end).

(** [Array.isArray(shape) && shape.length > 0 &&
     shape[0].x !== undefined && shape[0].y !== undefined] *)
Definition isPointArray (shape : value) : result bool :=
  match shape with
  | VArray (first :: _) => has_xy first
  | _ => Ok false
  end.

(** The points of an array the module treats as an array of points:
    [shape[i].x], [shape[i].y] for every [i]. *)
Definition coordinates (o : value) : result (option Q * option Q) :=
  o <- object o ;;
  Ok (match o with
      | VPoint p => (Some (px p), Some (py p))
      | VRect r => (Some (rx r), Some (ry r))
      | _ => (None, None)
      end).

(* ================================================================== *)
(** ** Rect (objects/rect) *)

(** Modelled from the spec: the Rect class is not in the embedded file.
    "Rect: (x, y, width, height). Supports union (unite) [...] and derives
    a center point"; [new Rect()] is "a zero rect at origin". *)
Definition Rect0 : rect := Rect 0 0 0 0.

(** Modelled from the spec: [Rect.prototype.unite], the smallest rect
    that encloses both ("the minimal axis-aligned rectangle enclosing"). *)
Definition unite (a b : rect) : rect :=
  let x := Qmin (rx a) (rx b) in
  let y := Qmin (ry a) (ry b) in
  let width := Qmax (rx a + rwidth a) (rx b + rwidth b) - x in
  let height := Qmax (ry a + rheight a) (ry b + rheight b) - y in
  Rect x y width height.

(** Modelled from the spec: the center point a Rect derives. *)
Definition Rect_centerPoint (r : rect) : point :=
  Point (rx r + rwidth r / 2) (ry r + rheight r / 2).

(** The rect around a list of points: the rects of size zero at the
    points, united from the left. *)
Definition extent (points : list point) : rect :=
  match points with
  | [] => Rect0
  | p :: rest =>
      fold_left (fun r q => unite r (Rect (px q) (py q) 0 0)) rest
                (Rect (px p) (py p) 0 0)
  end.

(** Equality of rects and points as numbers are equal. *)
Definition rect_eq (a b : rect) : Prop :=
  rx a == rx b /\ ry a == ry b /\
  rwidth a == rwidth b /\ rheight a == rheight b.

Definition point_eq (a b : point) : Prop :=
  px a == px b /\ py a == py b.

(** Equality of values as numbers are equal: the same structure, and
    equal numbers in the same places. *)
Definition number_eq (a b : option Q) : Prop :=
  match a, b with
  | Some x, Some y => x == y
  | None, None => True
  | _, _ => False
  end.

Definition command_eq (a b : command) : Prop :=
  ctype a = ctype b /\
  number_eq (cx a) (cx b) /\ number_eq (cy a) (cy b) /\
  number_eq (cx1 a) (cx1 b) /\ number_eq (cy1 a) (cy1 b) /\
  number_eq (cx2 a) (cx2 b) /\ number_eq (cy2 a) (cy2 b).

Definition path_eq (a b : path) : Prop :=
  Forall2 command_eq (commands a) (commands b) /\
  fill a = fill b /\ stroke a = stroke b /\ strokeWidth a = strokeWidth b.

#[warnings="-register-all"]
Inductive value_eq : value -> value -> Prop :=
| eq_undefined : value_eq VUndefined VUndefined
| eq_null : value_eq VNull VNull
| eq_point p q : point_eq p q -> value_eq (VPoint p) (VPoint q)
| eq_rect r s : rect_eq r s -> value_eq (VRect r) (VRect s)
| eq_color c : value_eq (VColor c) (VColor c)
| eq_path p q : path_eq p q -> value_eq (VPath p) (VPath q)
| eq_group l m : Forall2 value_eq l m -> value_eq (VGroup l) (VGroup m)
| eq_array l m : Forall2 value_eq l m -> value_eq (VArray l) (VArray m).

(** Two outcomes are the same: the same throw, or equal results. *)
Definition same_outcome {A : Type} (R : A -> A -> Prop) (a b : result A)
  : Prop :=
  match a, b with
  | Ok x, Ok y => R x y
  | Throw e, Throw f => e = f
  | NonFinite, NonFinite => True
  | _, _ => False
  end.


(* ================================================================== *)
(** ** Point and Path (objects/point, objects/path) *)

(** Modelled from the spec: [Point.ZERO], "a sentinel ZERO constant is
    conventionally used as default origin"; [new Point()] is the same
    point. *)
Definition Point_ZERO : point := Point 0 0.

(** Modelled from the spec: the Path methods [moveTo], [lineTo],
    [curveTo] and [close] of the absent Path class; a Path is "an ordered
    sequence of Commands", and each method adds its command at the end.
    The arguments are passed on as they are, present or not. *)
Definition push (p : path) (c : command) : path :=
  Path (commands p ++ [c]) (fill p) (stroke p) (strokeWidth p).

Definition moveTo (p : path) (x y : Q) : path := push p (MoveTo x y).
Definition lineTo (p : path) (x y : Q) : path := push p (LineTo x y).
Definition curveTo (p : path) (x1 y1 x2 y2 : option Q) (x y : Q) : path :=
  push p (Cmd bezier.CURVETO (Some x) (Some y) x1 y1 x2 y2).
Definition close (p : path) : path := push p Close.

(** A Path with these commands and no attribute set: the Paths of the
    examples are written with it.  Modelled from the spec: it also stands
    for [new Path(commands)] where the code keeps nothing but the
    commands of that Path, and for the [new Path()] of [connectPoints],
    whose fill and stroke the code sets itself.  The attributes that the
    absent constructor gives are not known (the specification has none),
    and no property stated rests on them; where they matter, [new Path()]
    is [new_Path], with attributes that are parameters. *)
Definition bare_path (cmds : list command) : path := Path cmds None None None.

(** [_cloneCommand] *)
Definition _cloneCommand (cmd : command) : command :=
  let t := ctype cmd in
  let has_xy := negb (bezier.eqb t bezier.CLOSE) in
  let has_1 := bezier.eqb t bezier.QUADTO || bezier.eqb t bezier.CURVETO in
  let has_2 := bezier.eqb t bezier.CURVETO in
  Cmd t
      (if has_xy then cx cmd else None) (if has_xy then cy cmd else None)
      (if has_1 then cx1 cmd else None) (if has_1 then cy1 cmd else None)
      (if has_2 then cx2 cmd else None) (if has_2 then cy2 cmd else None).

(* ================================================================== *)
(** ** Transform (objects/transform) *)

Module Transform.

(** Modelled from the spec: the Transform class is absent.  "An affine
    transform represented as composition of translate/rotate/scale
    operations, applied to produce a new shape (Path, Group, or point
    list) with identical structure but transformed coordinates."  The
    map is [(x, y) |-> (xx*x + xy*y + x0, yx*x + yy*y + y0)]; an operation
    added to a transform acts on the coordinates first, which is what makes
    [vg.fit] centre a shape ("centering+scaling ... into a target box"). *)
Record t : Type := Matrix { xx : Q; xy : Q; x0 : Q; yx : Q; yy : Q; y0 : Q }.


(** Modelled from the spec: [t.translate(tx, ty)], the transform that
    moves by [(tx, ty)] and then applies [t]. *)
Definition translate (m : t) (tx ty : Q) : t :=
  Matrix (xx m) (xy m) (xx m * tx + xy m * ty + x0 m)
         (yx m) (yy m) (yx m * tx + yy m * ty + y0 m).

(** Modelled from the spec: [t.scale(sx, sy)], the transform that scales
    by [(sx, sy)] and then applies [t]. *)
Definition scale (m : t) (sx sy : Q) : t :=
  Matrix (xx m * sx) (xy m * sy) (x0 m)
         (yx m * sx) (yy m * sy) (y0 m).

(** Modelled from the spec: the image of a point. *)
Definition transformPoint (m : t) (p : point) : point :=
  Point (xx m * px p + xy m * py p + x0 m)
        (yx m * px p + yy m * py p + y0 m).




End Transform.

(* ================================================================== *)
(** ** math.snap (util/math) *)

(** [Math.round]: the nearest integer, a tie going up. *)
Definition Math_round (v : Q) : Q := inject_Z (Qfloor (v + (1 # 2))).

(** Modelled from the spec: [math.snap] is absent.  It "rounds each
    coordinate toward the nearest multiple of distance [...] blended by
    strength (0 = no change, 1 = full snap) - linear interpolation between
    original and snapped value".  A zero distance divides by zero. *)
Definition math_snap (v distance strength : Q) : result Q :=
  if Qeq_bool distance 0 then NonFinite
  else Ok (v * (1 - strength)
           + strength * (Math_round (v / distance) * distance)).

(* ================================================================== *)
(** ** What the module requires from the other files *)

(** The four transformations a shape can carry as methods. *)
Inductive capability : Type := c_translate | c_scale | c_rotate | c_skew.

(** Their arguments (a position, a scale, an angle, an origin). *)
Inductive argument : Type :=
| ANumber (q : Q)
| APoint (p : point)
| AUndefined.

Class Collaborators : Type := {
  (** [o.bounds()] of a Path or a Group (objects/path, objects/group). *)
  method_bounds : value -> rect;
  (** [path.contours()]: the sub-contours, each an array of commands. *)
  path_contours : path -> list (list command);
  (** [group.contours()], if a Group has that method at all. *)
  group_contours : list value -> result (list (list command));
  (** [new Path(contour).points(amount, {closed: true})] *)
  path_points : list command -> nat -> list point;
  (** [bounding.contains(x, y)] of a Rect, a Path or a Group. *)
  method_contains : value -> Q -> Q -> bool;
  (** [shape.translate], [shape.scale], [shape.rotate], [shape.skew] of a
      Path or a Group, when it has that method. *)
  own_capability :
    capability -> value -> option (list argument -> result value);
  (** [Transformable.translate.apply(shape, args)] and the like
      (objects/transformable). *)
  Transformable : capability -> value -> list argument -> result value;
  (** [Transform.transformShape] on what is neither a Path, a Group nor an
      array. *)
  transformOther : Transform.t -> value -> result value;
  (** util/geo: [distance], [angle], [coordinates], [pointInPolygon]. *)
  geo_distance : Q -> Q -> Q -> Q -> Q;
  geo_angle : Q -> Q -> Q -> Q -> Q;
  geo_coordinates : Q -> Q -> Q -> Q -> point;
  geo_pointInPolygon : list point -> Q -> Q -> bool;
  (** [Math.cos(math.radians(a))] *)
  cos_radians : Q -> Q;
  (** util/random: [random.generator(seed)] makes a generator with a
      state of its own; calling it ([rand(min, max)]) gives a number and
      moves that state. *)
  rng : Type;
  random_generator : Q -> rng;
  rand : rng -> Q -> Q -> Q * rng;
  (** [Math.random()], and the state of the page it draws from. *)
  world : Type;
  Math_random : world -> Q * world;
}.

(** A loop [out[i] = f(in[i])] whose body also moves a state (here the
    state of a random generator). *)
Definition mapS {S A B : Type} (f : A -> S -> result (B * S))
  : list A -> S -> result (list B * S) :=
  fix go (l : list A) (s : S) : result (list B * S) :=
    match l with
    | [] => Ok ([], s)
    | a :: t =>
        r <- f a s ;;
        rs <- go t (snd r) ;;
        Ok (fst r :: fst rs, snd rs)
    end.

Section TransformShape.
Context {lib : Collaborators}.

(** [shape[i]] of an array of points, as a point. *)
Definition pointOf (o : value) : result point :=
  c <- coordinates o ;;
  x <- number (fst c) ;;
  y <- number (snd c) ;;
  Ok (Point x y).


End TransformShape.

(* ================================================================== *)
(** ** What the rest of the module requires from outside *)

(** A point of the clipping engine, [{X: x, Y: y}]; a ring of them is one
    polygon. *)
Record clip_point : Type := XY { X : Q; Y : Q }.

(** [ClipperLib.ClipType] *)
Inductive ClipType : Type := ctUnion | ctDifference | ctIntersection | ctXor.

Class Externals : Type := {
  (** [Color.BLACK] (objects/color). *)
  Color_BLACK : color;
  (** [t.rotate(r)] of a Transform (objects/transform). *)
  Transform_rotate : Transform.t -> Q -> Transform.t;
  (** [Path.combine(shape)] (objects/path). *)
  Path_combine : value -> path;
  (** [new Path(p)], given what [Path.combine] returned. *)
  Path_of : path -> path;
  (** [path.point(t)], [path.resampleByLength(l)], [path.isClosed()]. *)
  method_point : path -> Q -> point;
  method_resampleByLength : path -> Q -> path;
  method_isClosed : path -> bool;
  (** third_party/clipper: [ClipperLib.JS.ScaleUpPaths],
      [ClipperLib.JS.ScaleDownPaths], [ClipperLib.JS.Clean], and a
      [Clipper] that is given the subject paths and the clip paths, each
      with its closed flag, and executes the clip type it is handed
      ([undefined] when the name of the method is not known). *)
  ScaleUpPaths : list (list clip_point) -> Q -> list (list clip_point);
  ScaleDownPaths : list (list clip_point) -> Q -> list (list clip_point);
  Clean : list (list clip_point) -> Q -> list (list clip_point);
  Execute : option ClipType ->
            list (list clip_point) -> bool ->
            list (list clip_point) -> bool -> list (list clip_point);
  (** The fill, the stroke and the stroke width that [new Path()] gives a
      Path (objects/path). *)
  Path_fill : option color;
  Path_stroke : option color;
  Path_strokeWidth : option Q;
  (** [shape.colorize(fill, stroke, strokeWidth)],
      [shape.resampleByLength(maxLength)] and
      [shape.resampleByAmount(amount, perContour)] of whatever the shape
      is: a TypeError when it has no such method. *)
  shape_colorize : value -> value -> value -> option Q -> result value;
  shape_resampleByLength : value -> Q -> result value;
  shape_resampleByAmount : value -> Q -> option bool -> result value;
}.

(** [lodash.flatten]: the arrays among the arguments are replaced by their
    elements, one level deep. *)
Definition flatten (args : list value) : list value :=
  flat_map (fun a => match a with VArray items => items | _ => [a] end) args.

(** [%] of JavaScript with the divisor 1: what is left of [t] when its
    integer part, rounded toward zero, is taken away. *)
Definition truncate (t : Q) : Z := Z.quot (Qnum t) (Zpos (Qden t)).
Definition remainder1 (t : Q) : Q := t - inject_Z (truncate t).

(** [Array.prototype.sort] with a compare function that orders by a
    number computed from the element: the sort is stable. *)
Fixpoint insert_by_key (k : Q) (v : value) (l : list (Q * value))
  : list (Q * value) :=
  match l with
  | [] => [(k, v)]
  | (k', v') :: rest =>
      if ltb k' k then (k', v') :: insert_by_key k v rest
      else (k, v) :: l
  end.

Definition sort_by_key (l : list (Q * value)) : list (Q * value) :=
  fold_right (fun kv sorted => insert_by_key (fst kv) (snd kv) sorted) [] l.

(* ================================================================== *)
(** ** The vg object *)

Module vg.

(** The properties this file assigns on [vg], in the order of the file
    ([vg.shapePoints = vg.toPoints = ...] assigns two). *)
Definition properties : list string :=
  [ "HORIZONTAL"; "VERTICAL"; "EAST"; "WEST"; "NORTH"; "SOUTH";
    "bounds"; "makeCenteredRect"; "makePoint"; "makeRect"; "merge";
    "combinePaths"; "shapePoints"; "toPoints"; "colorize";
    "translate"; "scale"; "rotate"; "skew"; "copy"; "fit"; "fitTo";
    "_mirrorPoints"; "_mirrorPath"; "_mirrorGroup"; "_mirror"; "mirror";
    "pathLength"; "resampleByLength"; "resampleByAmount";
    "_wigglePoints"; "wigglePoints"; "_wiggleContours"; "wiggleContours";
    "_wigglePaths"; "wigglePaths"; "scatterPoints"; "connectPoints";
    "align"; "snap"; "deletePoints"; "deletePaths"; "delete";
    "pointOnPath"; "_x"; "_y"; "_angleToPoint"; "_distanceToPoint";
    "shapeSort"; "group"; "ungroup"; "centerPoint"; "link";
    "_compoundToPoints"; "compound" ]%string.

Definition has (name : string) : bool :=
  existsb (String.eqb name) properties.

(** [new vg.Rect(x, y, width, height)]: [vg.Rect] is looked up on the
    object above; calling [new] on undefined throws a TypeError. *)
Definition new_vg_Rect (x y width height : Q) : result rect :=
  if has "Rect" then Ok (Rect x y width height) else Throw TypeError.


Section Commands.
Context {lib : Collaborators}.

(** [vg.bounds] *)
Fixpoint bounds (o : value) : result rect :=
  match o with
  | VUndefined | VNull => Ok Rect0
  | VPath _ | VGroup _ => Ok (method_bounds o)
  | VPoint p => Ok (Rect (px p) (py p) 0 0)
  | VRect r => Ok (Rect (rx r) (ry r) (rwidth r) (rheight r))
  | VColor _ => new_vg_Rect 0 0 30 30
  | VArray items =>
      let n := inject_Z (Z.of_nat (List.length items)) in
      colors <- match items with
                | first :: _ => has_rgb first
                | [] => Ok false
                end ;;
      if colors : bool then Ok (Rect 0 0 (n * 30) 30)
      else
        r <- (fix loop (r : option rect) (l : list value)
                : result (option rect) :=
                match l with
                | [] => Ok r
                | o_i :: rest =>
                    b <- bounds o_i ;;
                    loop (Some (match r with
                                | None => b
                                | Some r => unite r b
                                end)) rest
                end) None items ;;
        Ok (match r with Some r => r | None => Rect0 end)
  end.

(** [vg.shapePoints = vg.toPoints] *)
Fixpoint toPoints (shape : value) : result (list point) :=
  match shape with
  | VUndefined | VNull => Ok []
  | VPath p =>
      (fix loop (l : list command) : result (list point) :=
         match l with
         | [] => Ok []
         | cmd :: rest =>
             match cx cmd with
             | Some x =>
                 y <- number (cy cmd) ;;
                 points <- loop rest ;;
                 Ok (Point x y :: points)
             | None => loop rest
             end
         end) (commands p)
  | VGroup shapes =>
      l <- mapM toPoints shapes ;; Ok (List.concat l)
  | _ => Throw TypeError
  end.

(** The method of that name the shape carries, if any: [shape.translate]
    and the like.  Reading it from undefined or null throws. *)
Definition capability_of (c : capability) (shape : value)
  : result (option (list argument -> result value)) :=
  o <- object shape ;;
  Ok (match o with
      | VPath _ | VGroup _ => own_capability c o
      | _ => None
      end).

(** [vg.translate] *)
Definition translate (shape : value) (position : argument) : result value :=
  m <- capability_of c_translate shape ;;
  match m with
  | Some shape_translate => shape_translate [position]
  | None => Transformable c_translate shape [position]
  end.

(** [vg.scale] *)
Definition scale (shape : value) (scale origin : argument) : result value :=
  m <- capability_of c_scale shape ;;
  match m with
  | Some shape_scale => shape_scale [scale; origin]
  | None => Transformable c_scale shape [scale; origin]
  end.









(** [vg._mirrorPoints] *)
Definition _mirrorPoints (points : list value) (fn : Q -> Q -> point)
  : result (list value) :=
  mapM (fun pt => p <- pointOf pt ;; Ok (VPoint (fn (px p) (py p)))) points.

(** [vg._mirrorPath]: [path.commands.length] throws on anything that has
    no [commands]. *)
Definition _mirrorPath (shape : value) (fn : Q -> Q -> point)
  : result value :=
  match shape with
  | VPath shape =>
      let p := Path [] (fill shape) (stroke shape) (strokeWidth shape) in
      p <- fold_left
             (fun (acc : result path) (cmd : command) =>
                p <- acc ;;
                match ctype cmd with
                | bezier.MOVETO =>
                    x <- number (cx cmd) ;; y <- number (cy cmd) ;;
                    let pt := fn x y in
                    Ok (moveTo p (px pt) (py pt))
                | bezier.LINETO =>
                    x <- number (cx cmd) ;; y <- number (cy cmd) ;;
                    let pt := fn x y in
                    Ok (lineTo p (px pt) (py pt))
                | bezier.CURVETO =>
                    x <- number (cx cmd) ;; y <- number (cy cmd) ;;
                    let pt := fn x y in
                    x1 <- number (cx1 cmd) ;; y1 <- number (cy1 cmd) ;;
                    let ctrl1 := fn x1 y1 in
                    x2 <- number (cx2 cmd) ;; y2 <- number (cy2 cmd) ;;
                    let ctrl2 := fn x2 y2 in
                    Ok (curveTo p (Some (px ctrl1)) (Some (py ctrl1))
                                  (Some (px ctrl2)) (Some (py ctrl2))
                                  (px pt) (py pt))
                | bezier.CLOSE => Ok (close p)
                | bezier.QUADTO =>
                    Throw (Error "Unknown command [object Object]")
                end)
             (commands shape) (Ok p) ;;
      Ok (VPath p)
  | _ => Throw TypeError
  end.

(** [vg._mirror], with [vg._mirrorGroup] in its Group case. *)
Fixpoint _mirror (shape : value) (fn : Q -> Q -> point) : result value :=
  match shape with
  | VUndefined | VNull => Throw TypeError
  | VGroup shapes =>
      mShapes <- mapM (fun shape => _mirror shape fn) shapes ;;
      Ok (VGroup mShapes)
  | VArray items =>
      points <- isPointArray shape ;;
      if points : bool then
        mPoints <- _mirrorPoints items fn ;; Ok (VArray mPoints)
      else _mirrorPath shape fn
  | _ => _mirrorPath shape fn
  end.

(** [vg._mirrorGroup] *)
Definition _mirrorGroup (group : list value) (fn : Q -> Q -> point)
  : result value :=
  mShapes <- mapM (fun shape => _mirror shape fn) group ;;
  Ok (VGroup mShapes).

(** [vg.mirror] *)
Definition mirror (shape : value) (angle : option Q) (origin : option point)
    (keepOriginal : bool) : result value :=
  if falsy shape then Ok VUndefined
  else
    let origin := match origin with Some o => o | None => Point_ZERO end in
    let angle := match angle with Some a => a | None => 90 end in
    let fn (x y : Q) : point :=
      let d := geo_distance x y (px origin) (py origin) in
      let a := geo_angle x y (px origin) (py origin) in
      let pt := geo_coordinates (px origin) (py origin) (180 + angle)
                                (d * cos_radians (a - angle)) in
      let d := geo_distance x y (px pt) (py pt) in
      let a := geo_angle x y (px pt) (py pt) in
      let pt := geo_coordinates x y a (d * 2) in
      Point (px pt) (py pt) in
    newShape <- _mirror shape fn ;;
    if keepOriginal then
      points <- isPointArray shape ;;
      match points, shape, newShape with
      | true, VArray items, VArray mItems => Ok (VArray (items ++ mItems))
      | _, _, _ => Ok (VGroup [shape; newShape])
      end
    else Ok newShape.

(** The offset one draw of the generator gives on one axis. *)
Definition jitter (r offsetAxis : Q) : Q := (r - 0.5) * offsetAxis * 2.

(** [dx = (rand(0, 1) - 0.5) * offset.x * 2; dy = ...]: two draws. *)
Definition draw_offset (offset : point) (g : rng) : Q * Q * rng :=
  let r1 := rand g 0 1 in
  let dx := jitter (fst r1) (px offset) in
  let r2 := rand (snd r1) 0 1 in
  let dy := jitter (fst r2) (py offset) in
  (dx, dy, snd r2).

(** The default and the number form of the [offset] argument. *)
Definition offset_of (offset : argument) : point :=
  match offset with
  | AUndefined => Point 10 10
  | ANumber o => Point o o
  | APoint p => p
  end.

(** The seed of a call: the one given, or else one draw of
    [Math.random()]. *)
Definition seed_of (seed : option Q) (w : world) : Q * world :=
  match seed with
  | Some s => (s, w)
  | None => Math_random w
  end.

(** The body of the loop of [vg._wigglePoints] over the commands. *)
Definition wiggleCommand (offset : point) (cmd : command)
    (st : path * rng) : result (path * rng) :=
  let '(p, g) := st in
  let '(dx, dy, g) := draw_offset offset g in
  match ctype cmd with
  | bezier.MOVETO =>
      x <- number (cx cmd) ;; y <- number (cy cmd) ;;
      Ok (moveTo p (x + dx) (y + dy), g)
  | bezier.LINETO =>
      x <- number (cx cmd) ;; y <- number (cy cmd) ;;
      Ok (lineTo p (x + dx) (y + dy), g)
  | bezier.CURVETO =>
      x <- number (cx cmd) ;; y <- number (cy cmd) ;;
      Ok (curveTo p (cx1 cmd) (cy1 cmd) (cx2 cmd) (cy2 cmd)
                  (x + dx) (y + dy), g)
  | bezier.CLOSE => Ok (close p, g)
  | bezier.QUADTO => Ok (p, g)
  end.

(** [vg._wigglePoints] *)
Fixpoint _wigglePoints (shape : value) (offset : point) (g : rng)
  : result (value * rng) :=
  match shape with
  | VUndefined | VNull => Throw TypeError
  | VPath shape =>
      let p := Path [] (fill shape) (stroke shape) (strokeWidth shape) in
      r <- fold_left (fun acc cmd => st <- acc ;; wiggleCommand offset cmd st)
                     (commands shape) (Ok (p, g)) ;;
      Ok (VPath (fst r), snd r)
  | VGroup shapes =>
      r <- mapS (fun s => _wigglePoints s offset) shapes g ;;
      Ok (VGroup (fst r), snd r)
  | VArray items =>
      points <- isPointArray shape ;;
      if points : bool then
        r <- mapS (fun o g =>
                     let '(dx, dy, g) := draw_offset offset g in
                     p <- pointOf o ;;
                     Ok (VPoint (Point (px p + dx) (py p + dy)), g))
                  items g ;;
        Ok (VArray (fst r), snd r)
      else
        r <- mapS (fun s => _wigglePoints s offset) items g ;;
        Ok (VArray (fst r), snd r)
  | _ => Throw RangeError
  end.

(** [vg.wigglePoints] *)
Definition wigglePoints (shape : value) (offset : argument)
    (seed : option Q) (w : world) : result value * world :=
  let '(seed, w) := seed_of seed w in
  let rand := random_generator seed in
  let offset := offset_of offset in
  (r <- _wigglePoints shape offset rand ;; Ok (fst r), w).





(** The [while (tries > 0)] loop of [vg.scatterPoints]: one point, or
    none when the tries are used up. *)
Fixpoint place (tries : nat) (b : rect) (paths : list (list point)) (g : rng)
  : option point * rng :=
  match tries with
  | O => (None, g)
  | S tries =>
      let r1 := rand g 0 1 in
      let x := rx b + fst r1 * rwidth b in
      let r2 := rand (snd r1) 0 1 in
      let y := ry b + fst r2 * rheight b in
      let inContourCount :=
        List.length (filter (fun path => geo_pointInPolygon path x y) paths)
      in
      if Nat.odd inContourCount then (Some (Point x y), snd r2)
      else place tries b paths (snd r2)
  end.

(** The [for (i = 0; i < amount; i += 1)] loop of [vg.scatterPoints]. *)
Fixpoint scatter (amount : nat) (b : rect) (paths : list (list point))
    (g : rng) : list point :=
  match amount with
  | O => []
  | S amount =>
      let r := place 100 b paths g in
      match fst r with
      | Some pt => pt :: scatter amount b paths (snd r)
      | None => scatter amount b paths (snd r)
      end
  end.

(** [vg.scatterPoints]: [shape.bounds()] and [shape.contours()] are
    methods of the shape. *)
Definition scatterPoints (shape : value) (amount : nat) (seed : option Q)
    (w : world) : result value * world :=
  if falsy shape then (Ok VUndefined, w)
  else
    let '(seed, w) := seed_of seed w in
    let rand := random_generator seed in
    (bounds <- match shape with
               | VPath _ | VGroup _ => Ok (method_bounds shape)
               | _ => Throw TypeError
               end ;;
     contours <- match shape with
                 | VPath p => Ok (path_contours p)
                 | VGroup shapes => group_contours shapes
                 | _ => Throw TypeError
                 end ;;
     let POINTS_PER_SEGMENT := 5%nat in
     let paths :=
       map (fun contour =>
              let nrKeypoints := List.length contour in
              path_points contour (nrKeypoints * POINTS_PER_SEGMENT))
           contours in
     Ok (VArray (map VPoint (scatter amount bounds paths rand))), w).

(** [math.snap(v + center, distance, strength) - center], the sum and
    the difference exact (rounded, they are
    [binary64.snapCoordinate]).  With the distance 0 the program
    computes a coordinate that is not a number: [NonFinite]. *)
Definition snapCoordinate (v center distance strength : Q) : result Q :=
  s <- math_snap (v + center) distance strength ;; Ok (s - center).

(** The body of the loop of [vg.snap] over the commands of a Path. *)
Definition snapCommand (distance strength : Q) (center : point)
    (p : path) (cmd : command) : result path :=
  match ctype cmd with
  | bezier.MOVETO =>
      cmd_x <- number (cx cmd) ;;
      x <- snapCoordinate cmd_x (px center) distance strength ;;
      cmd_y <- number (cy cmd) ;;
      y <- snapCoordinate cmd_y (py center) distance strength ;;
      Ok (moveTo p x y)
  | bezier.LINETO =>
      cmd_x <- number (cx cmd) ;;
      x <- snapCoordinate cmd_x (px center) distance strength ;;
      cmd_y <- number (cy cmd) ;;
      y <- snapCoordinate cmd_y (py center) distance strength ;;
      Ok (lineTo p x y)
  | bezier.CURVETO =>
      cmd_x <- number (cx cmd) ;;
      x <- snapCoordinate cmd_x (px center) distance strength ;;
      cmd_y <- number (cy cmd) ;;
      y <- snapCoordinate cmd_y (py center) distance strength ;;
      cmd_x1 <- number (cx1 cmd) ;;
      x1 <- snapCoordinate cmd_x1 (px center) distance strength ;;
      cmd_y1 <- number (cy1 cmd) ;;
      y1 <- snapCoordinate cmd_y1 (py center) distance strength ;;
      cmd_x2 <- number (cx2 cmd) ;;
      x2 <- snapCoordinate cmd_x2 (px center) distance strength ;;
      cmd_y2 <- number (cy2 cmd) ;;
      y2 <- snapCoordinate cmd_y2 (py center) distance strength ;;
      Ok (curveTo p (Some x1) (Some y1) (Some x2) (Some y2) x y)
  | bezier.CLOSE => Ok (close p)
  | bezier.QUADTO => Throw (Error "Invalid path command [object Object]")
  end.

(** [vg.snap] *)
Fixpoint snap (shape : value) (distance : Q) (strength : option Q)
    (center : option point) : result value :=
  let strength_ := match strength with Some s => s | None => 1 end in
  let center_ := match center with Some c => c | None => Point_ZERO end in
  match shape with
  | VUndefined | VNull => Ok VUndefined
  | VPath shape =>
      let p := Path [] (fill shape) (stroke shape) (strokeWidth shape) in
      p <- fold_left
             (fun acc cmd =>
                p <- acc ;; snapCommand distance strength_ center_ p cmd)
             (commands shape) (Ok p) ;;
      Ok (VPath p)
  | VGroup shapes =>
      sShapes <- mapM (fun s => snap s distance (Some strength_)
                                     (Some center_)) shapes ;;
      Ok (VGroup sShapes)
  | VArray items =>
      points <- isPointArray shape ;;
      if points : bool then
        sPoints <- mapM (fun o =>
                           point <- pointOf o ;;
                           x <- snapCoordinate (px point) (px center_)
                                               distance strength_ ;;
                           y <- snapCoordinate (py point) (py center_)
                                               distance strength_ ;;
                           Ok (VPoint (Point x y)))
                        items ;;
        Ok (VArray sPoints)
      else
        s <- mapM (fun s => snap s distance (Some strength_)
                                 (Some center_)) items ;;
        Ok (VArray s)
  | _ => Throw RangeError
  end.

(** [bounding.contains(x, y)]: the method is read from [bounding] before
    the arguments are. *)
Definition contains (bounding : value) (x y : option Q) : result bool :=
  match bounding with
  | VRect _ | VPath _ | VGroup _ =>
      x <- number x ;; y <- number y ;; Ok (method_contains bounding x y)
  | _ => Throw TypeError
  end.

(** The test of [vg.deletePoints] on a point:
    [(invert && bounding.contains(x, y)) ||
     (!invert && !bounding.contains(x, y))]. *)
Definition keeps (bounding : value) (invert : bool) (x y : option Q)
  : result bool :=
  if invert then contains bounding x y
  else inside <- contains bounding x y ;; Ok (negb inside).

(** The body of the loop of [vg.deletePoints] over the commands of a Path;
    the state is the commands kept so far and [newCurve]. *)
Definition deleteCommand (bounding : value) (invert : bool)
    (st : list command * bool) (cmd : command)
  : result (list command * bool) :=
  let '(kept, newCurve) := st in
  let cmd := _cloneCommand cmd in
  keep <- match cx cmd with
          | None => Ok true
          | Some _ => keeps bounding invert (cx cmd) (cy cmd)
          end ;;
  if keep : bool then
    let cmd :=
      if newCurve && negb (bezier.eqb (ctype cmd) bezier.MOVETO)
      then Cmd bezier.MOVETO (cx cmd) (cy cmd) (cx1 cmd) (cy1 cmd)
               (cx2 cmd) (cy2 cmd)
      else cmd in
    let newCurve :=
      if bezier.eqb (ctype cmd) bezier.MOVETO then false
      else if bezier.eqb (ctype cmd) bezier.CLOSE then true
      else newCurve in
    Ok (kept ++ [cmd], newCurve)
  else Ok (kept, newCurve).

(** The loop of [vg.deletePoints] over an array of points;
    [_cloneCommand(pt)] of a point copies its [x] and [y]. *)
Fixpoint deletePointItems (bounding : value) (invert : bool)
    (items : list value) : result (list value) :=
  match items with
  | [] => Ok []
  | pt :: rest =>
      c <- coordinates pt ;;
      keep <- keeps bounding invert (fst c) (snd c) ;;
      x <- number (fst c) ;;
      y <- number (snd c) ;;
      points <- deletePointItems bounding invert rest ;;
      Ok (if keep : bool then VPoint (Point x y) :: points else points)
  end.

(** [vg.deletePoints] *)
Fixpoint deletePoints (shape bounding : value) (invert : bool)
  : result value :=
  match shape with
  | VUndefined | VNull => Throw TypeError
  | VPath shape =>
      r <- fold_left
             (fun acc cmd => st <- acc ;; deleteCommand bounding invert st cmd)
             (commands shape) (Ok ([], true)) ;;
      Ok (VPath (Path (fst r) (fill shape) (stroke shape)
                      (strokeWidth shape)))
  | VGroup shapes =>
      dShapes <- mapM (fun s => deletePoints s bounding invert) shapes ;;
      Ok (VGroup dShapes)
  | VArray items =>
      points <- isPointArray shape ;;
      if points : bool then
        points <- deletePointItems bounding invert items ;;
        Ok (VArray points)
      else
        d <- mapM (fun s => deletePoints s bounding invert) items ;;
        Ok (VArray d)
  | _ => Throw RangeError
  end.

(** [selected] of [vg.deletePaths]: some command of the path has an [x]
    and lies in [bounding]; the search stops at the first one. *)
Fixpoint selected (bounding : value) (cmds : list command) : result bool :=
  match cmds with
  | [] => Ok false
  | cmd :: rest =>
      match cx cmd with
      | Some _ =>
          inside <- contains bounding (cx cmd) (cy cmd) ;;
          if inside : bool then Ok true else selected bounding rest
      | None => selected bounding rest
      end
  end.

(** [vg.deletePaths]: the loop over an array is [deleteItems]; a Group
    runs it over its [shapes]. *)
Fixpoint deletePaths (shape bounding : value) (invert : bool)
  : result value :=
  let deleteItems :=
    fix loop (shapes : list value) : result (list value) :=
      match shapes with
      | [] => Ok []
      | s :: rest =>
          match s with
          | VUndefined | VNull => Throw TypeError
          | VPath p =>
              sel <- selected bounding (commands p) ;;
              newShapes <- loop rest ;;
              Ok (if negb ((invert && negb sel) || (sel && negb invert))
                  then s :: newShapes else newShapes)
          | VGroup _ =>
              subShapes <- deletePaths s bounding invert ;;
              newShapes <- loop rest ;;
              Ok (subShapes :: newShapes)
          | _ => loop rest
          end
      end in
  match shape with
  | VUndefined | VNull => Throw TypeError
  | VPath _ => Ok VNull
  | VGroup shapes =>
      newShapes <- deleteItems shapes ;; Ok (VGroup newShapes)
  | VArray items =>
      newShapes <- deleteItems items ;; Ok (VArray newShapes)
  | _ => Ok VUndefined
  end.

(** [scope === name], where [scope] is the string given, if one is. *)
Definition scope_is (scope : option string) (name : string) : bool :=
  match scope with
  | Some s => String.eqb s name
  | None => false
  end.

(** [vg['delete']] *)
Definition delete (shape bounding : value) (scope : option string)
    (invert : bool) : result value :=
  match shape, bounding with
  | VNull, _ | _, VNull => Ok VNull
  | _, _ =>
      if scope_is scope "points" then deletePoints shape bounding invert
      else if scope_is scope "paths" then deletePaths shape bounding invert
      else Throw (Error "Invalid scope.")
  end.

(** [vg.ungroup] *)
Fixpoint ungroup (shape : value) : result (list value) :=
  match shape with
  | VUndefined | VNull => Ok []
  | VGroup shapes =>
      (fix loop (l : list value) : result (list value) :=
         match l with
         | [] => Ok []
         | s :: rest =>
             match s with
             | VUndefined | VNull => Throw TypeError
             | VPath _ => r <- loop rest ;; Ok (s :: r)
             | VGroup _ =>
                 sub <- ungroup s ;; r <- loop rest ;; Ok (sub ++ r)
             | _ => loop rest
             end
         end) shapes
  | VPath _ => Ok [shape]
  | _ => Ok []
  end.


Context {ext : Externals}.

(** [new Path()] *)
Definition new_Path : path := Path [] Path_fill Path_stroke Path_strokeWidth.







(** [vg.makeCenteredRect] (the halves and the differences exact) *)
Definition makeCenteredRect (cx cy width height : Q) : rect :=
  let x := cx - width / 2 in
  let y := cy - height / 2 in
  Rect x y width height.

(** [vg.makePoint] *)
Definition makePoint (x y : Q) : point := Point x y.

(** [vg.makeRect] *)
Definition makeRect (x y width height : Q) : rect := Rect x y width height.

(** [args[i] && args[i].length !== 0]: only an empty array has the length
    zero. *)
Definition mergeable (a : value) : bool :=
  negb (falsy a) && match a with VArray [] => false | _ => true end.

(** [vg.merge], given its arguments. *)
Definition merge (arguments : list value) : value :=
  let args := flatten arguments in
  VGroup (filter mergeable args).

(** [vg.group], given its arguments. *)
Definition group (arguments : list value) : value :=
  VGroup (flatten arguments).




(** [vg.connectPoints]: the loop runs over [points.length] elements, and
    only an array has a length. *)
Definition connectPoints (points : value) (closed : bool) : result value :=
  if falsy points then Ok VUndefined
  else
    let items := match points with VArray items => items | _ => [] end in
    p <- (fix loop (i : nat) (l : list value) (p : path) : result path :=
            match l with
            | [] => Ok p
            | pt :: rest =>
                c <- coordinates pt ;;
                let tag := match i with
                           | O => bezier.MOVETO
                           | S _ => bezier.LINETO
                           end in
                loop (S i) rest
                     (push p (Cmd tag (fst c) (snd c) None None None None))
            end) O items (bare_path []) ;;
    let p := if closed then close p else p in
    Ok (VPath (Path (commands p) None (Some Color_BLACK) (strokeWidth p))).

(** [vg.pointOnPath].  The remainder [t % 1] is exact in the program
    too; the sum [1 + t] is exact here, and rounded in the program, where
    it can reach 1. *)
Definition pointOnPath (shape : value) (t : Q) : result value :=
  if falsy shape then Ok VUndefined
  else
    let shape := match shape with
                 | VGroup _ => VPath (Path_of (Path_combine shape))
                 | _ => shape
                 end in
    let t := remainder1 t in
    let t := if ltb t 0 then 1 + t else t in
    match shape with
    | VPath p =>
        let pt := method_point p t in
        Ok (VPoint (Point (px pt) (py pt)))
    | _ => Throw TypeError
    end.

(** [vg._x] *)
Definition _x (shape : value) : result Q :=
  match shape with
  | VUndefined | VNull => Throw TypeError
  | VPoint p => Ok (px p)
  | VRect r => Ok (rx r)
  | VPath _ | VGroup _ => Ok (rx (method_bounds shape))
  | _ => Throw TypeError
  end.

(** [vg._y] *)
Definition _y (shape : value) : result Q :=
  match shape with
  | VUndefined | VNull => Throw TypeError
  | VPoint p => Ok (py p)
  | VRect r => Ok (ry r)
  | VPath _ | VGroup _ => Ok (ry (method_bounds shape))
  | _ => Throw TypeError
  end.

(** The point [vg._angleToPoint] and [vg._distanceToPoint] measure from:
    the shape itself when it has [x] and [y], or else the center point of
    its bounds. *)
Definition measured (shape : value) : result point :=
  match shape with
  | VUndefined | VNull => Throw TypeError
  | VPoint p => Ok (Point (px p) (py p))
  | VRect r => Ok (Point (rx r) (ry r))
  | VPath _ | VGroup _ => Ok (Rect_centerPoint (method_bounds shape))
  | _ => Throw TypeError
  end.

(** [vg._angleToPoint(point)] *)
Definition _angleToPoint (point : point) (shape : value) : result Q :=
  m <- measured shape ;;
  Ok (geo_angle (px m) (py m) (px point) (py point)).

(** [vg._distanceToPoint(point)] *)
Definition _distanceToPoint (point : point) (shape : value) : result Q :=
  m <- measured shape ;;
  Ok (geo_distance (px m) (py m) (px point) (py point)).

(** The name given to [vg.shapeSort]: one of the four [methods], or
    ([by_other]) a name for which [methods[method]] is undefined.  The
    names that [methods], an object literal, inherits from
    [Object.prototype] ([toString], [valueOf], [hasOwnProperty], ...) are
    not among these: with one of them the code goes on to sort by what
    that function returns, which is outside the model. *)
Inductive sort_method : Type :=
| by_x | by_y | by_angle | by_distance | by_other.

(** [methods[method]] *)
Definition sort_key (method : sort_method) (origin : point)
  : option (value -> result Q) :=
  match method with
  | by_x => Some _x
  | by_y => Some _y
  | by_angle => Some (_angleToPoint origin)
  | by_distance => Some (_distanceToPoint origin)
  | by_other => None
  end.

Definition is_undefined (v : value) : bool :=
  match v with VUndefined => true | _ => false end.

(** [vg.shapeSort].  [sort] puts the undefined elements last without
    calling the compare function, and calls it on every other element
    when there are two of them or more. *)
Definition shapeSort (shapes : value) (method : sort_method)
    (origin : option point) : result value :=
  if falsy shapes then Ok VUndefined
  else
    let origin := match origin with Some o => o | None => Point_ZERO end in
    match sort_key method origin with
    | None => Ok shapes
    | Some key =>
        match shapes with
        | VArray items =>
            let defined := filter (fun v => negb (is_undefined v)) items in
            let undefineds := filter is_undefined items in
            sorted <- match defined with
                      | [] | [_] => Ok defined
                      | _ =>
                          keys <- mapM key defined ;;
                          Ok (map snd (sort_by_key (combine keys defined)))
                      end ;;
            Ok (VArray (sorted ++ undefineds))
        | _ => Throw TypeError
        end
    end.

(** [compoundMethods[method]] *)
Definition compoundMethods (method : string) : option ClipType :=
  if String.eqb method "union" then Some ctUnion
  else if String.eqb method "difference" then Some ctDifference
  else if String.eqb method "intersection" then Some ctIntersection
  else if String.eqb method "xor" then Some ctXor
  else None.

(** [vg._compoundToPoints] *)
Definition _compoundToPoints (shape : list (list command))
  : result (list (list clip_point)) :=
  mapM (fun s =>
          (fix loop (l : list command) : result (list clip_point) :=
             match l with
             | [] => Ok []
             | pt :: rest =>
                 if negb (bezier.eqb (ctype pt) bezier.CLOSE) then
                   x <- number (cx pt) ;;
                   y <- number (cy pt) ;;
                   points <- loop rest ;;
                   Ok (XY x y :: points)
                 else loop rest
             end) s)
       shape.

(** The last loop of [vg.compound]: the polygons of the solution are
    made into one Path, from [new Path()].  [s[0].X] throws when the polygon is empty.
    [path.closePath()] is taken to be [close]: the specification has the
    loop "auto-closing a ring whose first and last points differ". *)
Definition assemble (solutionPaths : list (list clip_point)) : result path :=
  fold_left
    (fun acc s =>
       p <- acc ;;
       let p :=
         snd (fold_left
                (fun (st : nat * path) pt =>
                   (S (fst st),
                    match fst st with
                    | O => moveTo (snd st) (X pt) (Y pt)
                    | S _ => lineTo (snd st) (X pt) (Y pt)
                    end))
                s (O, p)) in
       match s with
       | [] => Throw TypeError
       | first :: _ =>
           let final := List.last s first in
           if negb (Qeq_bool (X first) (X final))
              || negb (Qeq_bool (Y first) (Y final))
           then Ok (close p)
           else Ok p
       end)
    solutionPaths (Ok new_Path).

(** [vg.compound] *)
Definition compound (shape1 shape2 : value) (method : string)
  : result value :=
  o1 <- object shape1 ;;
  let shape1 := match o1 with VPath p => p | _ => Path_combine o1 end in
  o2 <- object shape2 ;;
  let shape2 := match o2 with VPath p => p | _ => Path_combine o2 end in
  let contours1 := path_contours (method_resampleByLength shape1 1) in
  let contours2 := path_contours (method_resampleByLength shape2 1) in
  subjPaths <- _compoundToPoints contours1 ;;
  clipPaths <- _compoundToPoints contours2 ;;
  let scale := 100 in
  let subjPaths := ScaleUpPaths subjPaths scale in
  let clipPaths := ScaleUpPaths clipPaths scale in
  let solutionPaths :=
    Execute (compoundMethods method)
            subjPaths (method_isClosed shape1)
            clipPaths (method_isClosed shape2) in
  let solutionPaths := Clean solutionPaths (0.1 * scale) in
  let solutionPaths := ScaleDownPaths solutionPaths scale in
  p <- assemble solutionPaths ;;
  Ok (VPath p).

End Commands.
End vg.

(* ================================================================== *)
(** ** Snapping in binary64

    The numbers the program runs on are IEEE 754 binary64 numbers, and
    every operation rounds to the nearest one.  This is [vg.snap] on an
    array of points once more, over these numbers. *)

Module binary64.
Import PrimFloat.
Local Open Scope float_scope.

(** [Math.floor]: above 2^52 every number is an integer; below, adding
    and subtracting 2^52 rounds to the nearest integer, which is one too
    many when it is above the number. *)
Definition Math_floor (x : float) : float :=
  let a := abs x in
  if 0x1p+52 <=? a then x
  else
    let r := (a + 0x1p+52) - 0x1p+52 in
    let f := if a <? r then r - 1 else r in
    if x <? 0 then (if f =? a then x else - (f + 1)) else f.

(** [Math.round]: the nearest integer, a tie going up.  The difference
    [x - Math_floor x] is computed without rounding.  (The sign of a zero
    result is not kept.) *)
Definition Math_round (x : float) : float :=
  let f := Math_floor x in
  if x - f <? 0.5 then f else f + 1.

(** Modelled from the spec: [math.snap] is absent; the formula is that of
    [math_snap] above, each operation rounded. *)
Definition math_snap (v distance strength : float) : float :=
  v * (1 - strength) + strength * Math_round (v / distance) * distance.

Record point : Type := Point { x : float; y : float }.

Definition Point_ZERO : point := Point 0 0.

(** [math.snap(v + center, distance, strength) - center] *)
Definition snapCoordinate (v center distance strength : float) : float :=
  math_snap (v + center) distance strength - center.

(** [vg.snap] on an array of points (the third branch). *)
Definition snap (shape : list point) (distance : float)
    (strength : option float) (center : option point) : list point :=
  let strength := match strength with Some s => s | None => 1 end in
  let center := match center with Some c => c | None => Point_ZERO end in
  map (fun point =>
         let x := snapCoordinate (x point) (x center) distance strength in
         let y := snapCoordinate (y point) (y center) distance strength in
         Point x y)
      shape.

End binary64.

(* ================================================================== *)
(** ** One set of collaborators

    A concrete [Collaborators], to run the commands on examples: paths
    are polylines (the bounds of a Path are those of its end points, a
    Path is one contour), a point is inside a polygon by the crossing
    rule, the generator is a linear congruential one.  The methods and
    the trigonometry the examples do not reach are stand-ins. *)

Module Sample.

Definition endPoints (cmds : list command) : list point :=
  flat_map (fun cmd => match cx cmd, cy cmd with
                       | Some x, Some y => [Point x y]
                       | _, _ => []
                       end) cmds.

Fixpoint allPoints (shape : value) : list point :=
  match shape with
  | VPath p => endPoints (commands p)
  | VGroup shapes => flat_map allPoints shapes
  | _ => []
  end.

(** The edge from [a] to [b] crosses the ray that leaves [(x, y)] to the
    right. *)
Definition crosses (a b : point) (x y : Q) : bool :=
  negb (Bool.eqb (gtb (py a) y) (gtb (py b) y))
  && ltb x ((px b - px a) * (y - py a) / (py b - py a) + px a).

Definition pointInPolygon (points : list point) (x y : Q) : bool :=
  match points with
  | [] => false
  | first :: _ =>
      let edges := combine points (tl points ++ [first]) in
      Nat.odd (List.length
                 (filter (fun e => crosses (fst e) (snd e) x y) edges))
  end.

Definition inRect (r : rect) (x y : Q) : bool :=
  geb x (rx r) && Qle_bool x (rx r + rwidth r)
  && geb y (ry r) && Qle_bool y (ry r + rheight r).

(** The remainder of a division, not negative. *)
Definition modulo (n m : Q) : Q := n - m * inject_Z (Qfloor (n / m)).

(** [seed = (seed * 9301 + 49297) % 233280; v = seed / 233280;
     return min + v * (max - min)] *)
Definition lcg (seed : Q) (min max : Q) : Q * Q :=
  let seed := modulo (seed * 9301 + 49297) 233280 in
  (min + (seed / 233280) * (max - min), seed).

#[export] Instance lib : Collaborators := {|
  method_bounds := fun o => extent (allPoints o);
  path_contours := fun p => [commands p];
  group_contours := fun _ => Throw TypeError;
  path_points := fun contour _ => endPoints contour;
  method_contains := fun bounding x y =>
    match bounding with
    | VRect r => inRect r x y
    | _ => inRect (extent (allPoints bounding)) x y
    end;
  own_capability := fun _ _ => None;
  Transformable := fun _ shape _ => Ok shape;
  transformOther := fun m shape =>
    match shape with
    | VPoint p => Ok (VPoint (Transform.transformPoint m p))
    | _ => Ok shape
    end;
  geo_distance := fun _ _ _ _ => 0;
  geo_angle := fun _ _ _ _ => 0;
  geo_coordinates := fun x y _ _ => Point x y;
  geo_pointInPolygon := pointInPolygon;
  cos_radians := fun _ => 1;
  rng := Q;
  random_generator := fun seed => seed;
  rand := lcg;
  world := Q;
  Math_random := fun w => lcg w 0 1
|}.

(** The unit square with its corner at the origin, as a closed Path. *)
Definition square : path :=
  bare_path [MoveTo 0 0; LineTo 1 0; LineTo 1 1; LineTo 0 1; Close].

(** The commands of the Paths of a shape, one after the other. *)
Fixpoint allCommands (shape : value) : list command :=
  match shape with
  | VPath p => commands p
  | VGroup shapes => flat_map allCommands shapes
  | _ => []
  end.

Definition scalePaths (paths : list (list clip_point)) (scale : Q)
  : list (list clip_point) :=
  map (map (fun pt => XY (X pt * scale) (Y pt * scale))) paths.

(** Stand-ins for the rest: no rotation, the first end point for every
    parameter of a Path, no resampling, no coloring, a clipping engine
    that hands back the polygons of the subject followed by those of the
    clip, and a [new Path()] that is filled with black and has the stroke
    width 1. *)
#[export] Instance ext : Externals := {|
  Color_BLACK := Color 0 0 0 1;
  Transform_rotate := fun t _ => t;
  Path_combine := fun shape => bare_path (allCommands shape);
  Path_of := fun p => p;
  method_point := fun p _ =>
    match endPoints (commands p) with
    | first :: _ => first
    | [] => Point 0 0
    end;
  method_resampleByLength := fun p _ => p;
  method_isClosed := fun p =>
    existsb (fun cmd => bezier.eqb (ctype cmd) bezier.CLOSE) (commands p);
  ScaleUpPaths := scalePaths;
  ScaleDownPaths := fun paths scale => scalePaths paths (/ scale);
  Clean := fun paths _ => paths;
  Execute := fun _ subj _ clip _ => subj ++ clip;
  Path_fill := Some (Color 0 0 0 1);
  Path_stroke := None;
  Path_strokeWidth := Some 1;
  shape_colorize := fun shape _ _ _ =>
    match shape with VPath _ | VGroup _ => Ok shape | _ => Throw TypeError end;
  shape_resampleByLength := fun shape _ =>
    match shape with VPath _ | VGroup _ => Ok shape | _ => Throw TypeError end;
  shape_resampleByAmount := fun shape _ _ =>
    match shape with VPath _ | VGroup _ => Ok shape | _ => Throw TypeError end
|}.

End Sample.

(* ================================================================== *)
(** ** The sketch of the noise landscape

    The first part of [src/p5/02_M/M_1_4_01/sketch.js]: the variables of
    the sketch, [setup], [draw], [mousePressed] and [keyReleased].  What
    p5 provides is taken from the class [P5]; the calls that only paint
    ([background], [fill], [vertex], ...) change none of the variables and
    are kept as the mesh that [draw] hands to them. *)

Module M_1_4_01.

(** [mouseButton] *)
Inductive button : Type := LEFT | RIGHT | CENTER.

(** The key codes of p5. *)
Definition LEFT_ARROW : Z := 37.
Definition UP_ARROW : Z := 38.
Definition RIGHT_ARROW : Z := 39.
Definition DOWN_ARROW : Z := 40.

Class P5 : Type := {
  PI : Q;
  (** [noise(x, y)], after [noiseDetail(octaves, falloff)], for the seed
      of the noise that is set. *)
  noise_state : Type;
  noise : noise_state -> Q -> Q -> Q -> Q -> Q;
  (** [noiseSeed(floor(random(100000)))]: a new seed of the noise. *)
  reseed : noise_state -> noise_state;
}.

(** The variables of the sketch.  [clickRotationX] and [clickRotationZ]
    have no value before the first [mousePressed]. *)
Record sketch : Type := Sketch {
  tileCount : nat;
  zScale : Q;
  noiseXRange : Q;
  noiseYRange : Q;
  octaves : Q;
  falloff : Q;
  threshold : Q;
  offsetX : Q;
  offsetY : Q;
  clickX : Q;
  clickY : Q;
  zoom : Q;
  rotationX : Q;
  rotationZ : Q;
  targetRotationX : Q;
  targetRotationZ : Q;
  clickRotationX : option Q;
  clickRotationZ : option Q
}.

(** What p5 knows when it calls the sketch. *)
Record environment : Type := Environment {
  width : Q;
  height : Q;
  mouseIsPressed : bool;
  mouseButton : button;
  mouseX : Q;
  mouseY : Q;
  keyCode : Z;
  key : string
}.

(** What one point of the mesh is painted with: the colors that are mixed
    (the bottom and the middle color, or the middle and the top color),
    the amount of the mix, and the two vertices. *)
Record mesh_point : Type := MeshPoint {
  low : bool;
  amount : Q;
  vertex1 : Q * Q * Q;
  vertex2 : Q * Q * Q
}.

(** What [keyReleased] asks of p5. *)
Inductive effect : Type := saveCanvas | noiseSeed.

Section Sketch.
Context {p5 : P5}.

Definition TWO_PI : Q := 2 * PI.
Definition HALF_PI : Q := PI / 2.

(** [map(n, start1, stop1, start2, stop2)] of p5. *)
Definition map_range (n start1 stop1 start2 stop2 : Q) : result Q :=
  if Qeq_bool (stop1 - start1) 0 then NonFinite
  else Ok ((n - start1) / (stop1 - start1) * (stop2 - start2) + start2).

(** [setup] *)
Definition setup : sketch :=
  Sketch 50 150 10 10 4 0.5 0.30 0 0 0 0 (-300) 0 0 (PI / 3) 0 None None.

(** The first lines of [draw]: the rotation follows the mouse while the
    right button is down, and eases to its target. *)
Definition turn (s : sketch) (e : environment) : result sketch :=
  s <- (if mouseIsPressed e
           && match mouseButton e with RIGHT => true | _ => false end
        then
          let ox := mouseX e - clickX s in
          let oy := mouseY e - clickY s in
          if Qeq_bool (width e) 0 || Qeq_bool (height e) 0 then NonFinite else
          crx <- number (clickRotationX s) ;;
          let tx := Qmin (Qmax (crx + oy / width e * TWO_PI) (- HALF_PI))
                         HALF_PI in
          crz <- number (clickRotationZ s) ;;
          let tz := crz + ox / height e * TWO_PI in
          Ok (Sketch (tileCount s) (zScale s) (noiseXRange s) (noiseYRange s)
                     (octaves s) (falloff s) (threshold s)
                     ox oy (clickX s) (clickY s) (zoom s)
                     (rotationX s) (rotationZ s) tx tz
                     (clickRotationX s) (clickRotationZ s))
        else Ok s) ;;
  let rx := rotationX s + (targetRotationX s - rotationX s) * 0.25 in
  let rz := rotationZ s + (targetRotationZ s - rotationZ s) * 0.25 in
  let s := Sketch (tileCount s) (zScale s) (noiseXRange s) (noiseYRange s)
                  (octaves s) (falloff s) (threshold s)
                  (offsetX s) (offsetY s) (clickX s) (clickY s) (zoom s)
                  rx rz (targetRotationX s) (targetRotationZ s)
                  (clickRotationX s) (clickRotationZ s) in
  if mouseIsPressed e
     && match mouseButton e with LEFT => true | _ => false end
  then
    Ok (Sketch (tileCount s) (zScale s) (mouseX e / 10) (mouseY e / 10)
               (octaves s) (falloff s) (threshold s)
               (offsetX s) (offsetY s) (clickX s) (clickY s) (zoom s)
               (rotationX s) (rotationZ s)
               (targetRotationX s) (targetRotationZ s)
               (clickRotationX s) (clickRotationZ s))
  else Ok s.

(** The body of the two loops of [draw], for one [meshX] and [meshY];
    [noiseYMax] goes from one point of the mesh to the next. *)
Definition mesh_at (s : sketch) (e : environment) (n : noise_state)
    (meshX meshY : nat) (noiseYMax : Q) : result (mesh_point * Q) :=
  let tiles := inject_Z (Z.of_nat (tileCount s)) in
  let tileSizeY := height e / tiles in
  let noiseStepY := noiseYRange s / tiles in
  let meshX := inject_Z (Z.of_nat meshX) in
  let meshY := inject_Z (Z.of_nat meshY) in
  x <- map_range meshX 0 tiles (- width e / 2) (width e / 2) ;;
  y <- map_range meshY 0 tiles (- height e / 2) (height e / 2) ;;
  noiseX <- map_range meshX 0 tiles 0 (noiseXRange s) ;;
  noiseY <- map_range meshY 0 tiles 0 (noiseYRange s) ;;
  let z1 := noise n (octaves s) (falloff s) noiseX noiseY in
  let z2 := noise n (octaves s) (falloff s) noiseX (noiseY + noiseStepY) in
  let noiseYMax := Qmax noiseYMax z1 in
  mix <- (if Qle_bool z1 (threshold s) then
            amount <- map_range z1 0 (threshold s) 0.15 1 ;;
            Ok (true, amount)
          else
            amount <- map_range z1 (threshold s) noiseYMax 0 1 ;;
            Ok (false, amount)) ;;
  Ok (MeshPoint (fst mix) (snd mix)
                (x, y, z1 * zScale s) (x, y + tileSizeY, z2 * zScale s),
      noiseYMax).

(** The two loops: [meshY] and [meshX] go from 0 to [tileCount], both
    included. *)
Definition mesh (s : sketch) (e : environment) (n : noise_state)
  : result (list mesh_point) :=
  let range := seq 0 (S (tileCount s)) in
  r <- fold_left
         (fun acc meshY =>
            fold_left
              (fun acc meshX =>
                 st <- acc ;;
                 m <- mesh_at s e n meshX meshY (snd st) ;;
                 Ok (fst st ++ [fst m], snd m))
              range acc)
         range (Ok ([], 0)) ;;
  Ok (fst r).

(** [draw]: the variables after it, and the mesh it painted. *)
Definition draw (s : sketch) (e : environment) (n : noise_state)
  : result (sketch * list mesh_point) :=
  s <- turn s e ;;
  m <- mesh s e n ;;
  Ok (s, m).

(** [mousePressed] *)
Definition mousePressed (s : sketch) (e : environment) : sketch :=
  Sketch (tileCount s) (zScale s) (noiseXRange s) (noiseYRange s)
         (octaves s) (falloff s) (threshold s)
         (offsetX s) (offsetY s) (mouseX e) (mouseY e) (zoom s)
         (rotationX s) (rotationZ s)
         (targetRotationX s) (targetRotationZ s)
         (Some (rotationX s)) (Some (rotationZ s)).

(** [keyReleased]: the variables after it, the noise, and what it asked
    of p5. *)
Definition keyReleased (s : sketch) (e : environment) (n : noise_state)
  : sketch * noise_state * list effect :=
  let falloff := falloff s in
  let falloff := if Z.eqb (keyCode e) UP_ARROW then falloff + 0.05
                 else falloff in
  let falloff := if Z.eqb (keyCode e) DOWN_ARROW then falloff - 0.05
                 else falloff in
  let falloff := if gtb falloff 1.0 then 1.0 else falloff in
  let falloff := if ltb falloff 0.0 then 0.0 else falloff in
  let octaves := octaves s in
  let octaves := if Z.eqb (keyCode e) LEFT_ARROW then octaves - 1
                 else octaves in
  let octaves := if Z.eqb (keyCode e) RIGHT_ARROW then octaves + 1
                 else octaves in
  let octaves := if ltb octaves 0 then 0 else octaves in
  let zoom := zoom s in
  let zoom := if Z.eqb (keyCode e) 187 then zoom + 20 else zoom in
  let zoom := if Z.eqb (keyCode e) 189 then zoom - 20 else zoom in
  let saves := if String.eqb (key e) "s" || String.eqb (key e) "S"
               then [saveCanvas] else [] in
  let seeds := if String.eqb (key e) " " then [noiseSeed] else [] in
  (Sketch (tileCount s) (zScale s) (noiseXRange s) (noiseYRange s)
          octaves falloff (threshold s)
          (offsetX s) (offsetY s) (clickX s) (clickY s) zoom
          (rotationX s) (rotationZ s)
          (targetRotationX s) (targetRotationZ s)
          (clickRotationX s) (clickRotationZ s),
   if String.eqb (key e) " " then reseed n else n,
   saves ++ seeds).

(** What p5 calls after [setup]. *)
Inductive event : Type := Draw | MousePressed | KeyReleased.

(** One call; a [draw] that met a number that is none leaves the sketch
    out of the model. *)
Definition call (ev : event) (e : environment) (st : sketch * noise_state)
  : result (sketch * noise_state) :=
  match ev with
  | Draw => r <- draw (fst st) e (snd st) ;; Ok (fst r, snd st)
  | MousePressed => Ok (mousePressed (fst st) e, snd st)
  | KeyReleased =>
      let r := keyReleased (fst st) e (snd st) in Ok (fst (fst r), snd (fst r))
  end.

(** The states of the sketch that p5 can bring about: [setup], then calls
    with the canvas of 600 by 600 that [setup] makes.  Only the calls that
    return are followed: a [draw] that computes with a number that is
    none (the program goes on, with variables that are not numbers) leads
    to no state here; [run] below tells such a run from the others. *)
Inductive reachable (n0 : noise_state) : sketch * noise_state -> Prop :=
| after_setup : reachable n0 (setup, n0)
| after_call ev e st st' :
    reachable n0 st -> width e = 600 -> height e = 600 ->
    call ev e st = Ok st' -> reachable n0 st'.

(** The calls p5 makes one after the other, each with the mouse and the
    keys of its moment; the run ends at the first call that does not
    return. *)
Fixpoint run (calls : list (event * environment))
    (st : sketch * noise_state) : result (sketch * noise_state) :=
  match calls with
  | [] => Ok st
  | (ev, e) :: rest => st <- call ev e st ;; run rest st
  end.

(** A call of [mousePressed]. *)
Definition is_click (c : event * environment) : bool :=
  match fst c with MousePressed => true | _ => false end.

End Sketch.

(** A p5 for the examples: a noise between 0 and 1 that depends on the
    place only, and seeds that are counted. *)
Definition sample_noise (x y : Q) : Q := Qmin 1 (Qabs (x - y) * (1 # 10)).

Definition sample_p5 : P5 := {|
  PI := 355 # 113;
  noise_state := Z;
  noise := fun _ _ _ x y => sample_noise x y;
  reseed := Z.succ
|}.

End M_1_4_01.

(* ================================================================== *)
(** ** The sketch of the waves

    [src/artworks/perlin_wave/perlin_wave.pde]: the two counters that
    [draw] moves.  An [int] of Processing has 32 bits. *)

Module perlin_wave.

(** An [int]: the sum wraps around. *)
Definition int32 (z : Z) : Z := ((z + 2 ^ 31) mod 2 ^ 32 - 2 ^ 31)%Z.

Definition offset : Z := 500.

(** [ofs] and [ofs_v] *)
Record counters : Type := Counters { ofs : Z; ofs_v : Z }.

(** [int ofs = 0; int ofs_v = 1;] *)
Definition initial : counters := Counters 0 1.

(** The first lines of [draw]:
    [ofs += ofs_v; if ((ofs == offset) || (ofs == 0)) ofs_v = 0 - ofs_v;] *)
Definition advance (c : counters) : counters :=
  let ofs := int32 (ofs c + ofs_v c) in
  let ofs_v := if Z.eqb ofs offset || Z.eqb ofs 0
               then int32 (0 - ofs_v c) else ofs_v c in
  Counters ofs ofs_v.

(** The three lines [draw] paints start at [212 + ofs], [215 + ofs] and
    [210 + ofs]. *)
Definition lines (c : counters) : list Z :=
  [int32 (212 + ofs c); int32 (215 + ofs c); int32 (210 + ofs c)].

(** [draw]: the counters after it and the lines it painted. *)
Definition draw (c : counters) : counters * list Z :=
  let c := advance c in (c, lines c).

(** The counters after [n] calls of [draw]. *)
Definition after_draws (n : nat) : counters := Nat.iter n advance initial.

(** A triangle wave of period 1000: up from 0 to 500, then down again. *)
Definition triangle (n : Z) : counters :=
  let r := (n mod 1000)%Z in
  if (r <? 500)%Z then Counters r 1 else Counters (1000 - r) (-1).

(** [int step = 100; float noiseScale = 0.02;] *)
Definition step : Z := 100.
Definition noiseScale : Q := 0.02.

(** [size(2000, 1000)] *)
Definition width : Z := 2000.
Definition height : Z := 1000.

Section DrawLine.
(** [noise(x, y)] of Processing. *)
Variable noise : Q -> Q -> Q.

(** [drawLine(y0, to, from)]: the vertices it hands to [curveVertex], in
    their order.  The loop runs while [i < width / step + 3], the
    division being that of [int]. *)
Definition drawLine (frameCount : Z) (y0 : Z) : list (Q * Q) :=
  [(-50, inject_Z y0)]
  ++ map (fun i : nat =>
            let i := Z.of_nat i in
            let noiseVal :=
              noise (inject_Z i * noiseScale * (inject_Z y0 * 0.06))
                    (inject_Z frameCount * noiseScale) in
            (inject_Z (int32 (int32 (i * step) - 10)),
             inject_Z y0 + noiseVal * inject_Z offset))
         (seq 0 (Z.to_nat (int32 (Z.quot width step + 3))))
  ++ [(inject_Z (int32 (width + 10)), inject_Z (int32 (height + 200)));
      (0, inject_Z (int32 (height + 210)));
      (0, inject_Z (int32 (height + 210)))].

(** The vertices of the three lines of a call of [draw], the counters
    being [c] before it. *)
Definition frame (frameCount : Z) (c : counters) : list (list (Q * Q)) :=
  map (drawLine frameCount) (snd (draw c)).

End DrawLine.

End perlin_wave.

(* ================================================================== *)
(** ** What the specification speaks of *)

(** The rect [u] encloses the rect [r]. *)
Definition encloses (u r : rect) : Prop :=
  rx u <= rx r /\ rx r + rwidth r <= rx u + rwidth u /\
  ry u <= ry r /\ ry r + rheight r <= ry u + rheight u.

Section Kept.
Context {lib : Collaborators}.

(** [R.contains(p.x, p.y)]: the point lies in the rect, as the rect
    itself decides it. *)
Definition inside (R : rect) (p : point) : bool :=
  method_contains (VRect R) (px p) (py p).

(** The points of an array that a deletion keeps: those outside the rect,
    or with [invert] those inside. *)
Definition kept (R : rect) (invert : bool) (P : list point) : list point :=
  filter (fun p => if invert then inside R p else negb (inside R p)) P.


End Kept.

Section Draws.
Context {lib : Collaborators}.







End Draws.

(** The value is a Path. *)
Definition isPath (v : value) : bool :=
  match v with VPath _ => true | _ => false end.

(** An argument of [vg.merge] that is a Path or an array of Paths, and
    the Paths it brings. *)
Definition path_argument (a : path + list path) : value :=
  match a with
  | inl p => VPath p
  | inr ps => VArray (map VPath ps)
  end.

Definition paths_of (a : path + list path) : list path :=
  match a with
  | inl p => [p]
  | inr ps => ps
  end.

(** The commands of the polyline through the points, the first of them
    numbered [i]: a [MOVETO] for the number 0, a [LINETO] for the
    others. *)
Fixpoint polyline (i : nat) (pts : list point) : list command :=
  match pts with
  | [] => []
  | p :: rest =>
      (match i with O => MoveTo (px p) (py p) | S _ => LineTo (px p) (py p) end)
      :: polyline (S i) rest
  end.

(** The commands are those of contours that start as they must: the
    first command, and every command that follows a [CLOSE], is a
    [MOVETO].  [opening] says whether a contour is to start. *)
Fixpoint well_started (opening : bool) (cmds : list command) : bool :=
  match cmds with
  | [] => true
  | cmd :: rest =>
      (if opening then bezier.eqb (ctype cmd) bezier.MOVETO else true)
      && well_started (bezier.eqb (ctype cmd) bezier.CLOSE) rest
  end.

(** The value is a Group. *)
Definition isGroup (v : value) : bool :=
  match v with VGroup _ => true | _ => false end.

(** The Paths that a deletion of paths keeps, [sels] telling of each
    Path whether it is selected: the selected ones if [invert], the
    others if not. *)
Definition chosen (invert : bool) (ps : list path) (sels : list bool)
  : list path :=
  map fst (filter (fun x => Bool.eqb (snd x) invert) (combine ps sels)).

(** The command is no [QUADTO]. *)
Definition notQuad (c : command) : bool :=
  negb (bezier.eqb (ctype c) bezier.QUADTO).


(** A point of the clipping engine as a point. *)
Definition clip_to_point (pt : clip_point) : point := Point (X pt) (Y pt).

(** The list has no element. *)
Definition is_empty {A : Type} (l : list A) : bool :=
  match l with [] => true | _ => false end.

(** The commands of one polygon: the polyline through its points, and a
    [CLOSE] unless its last point is its first. *)
Definition ring_commands (s : list clip_point) : list command :=
  polyline 0 (map clip_to_point s) ++
  match s with
  | [] => []
  | first :: _ =>
      if negb (Qeq_bool (X first) (X (List.last s first)))
         || negb (Qeq_bool (Y first) (Y (List.last s first)))
      then [Close] else []
  end.







(** One unit in the last place of the binary64 numbers below 1: what the
    rounding of a sum between 0 and 1 can cost at most. *)
Definition last_place : Q := 1 # 9007199254740992.

(* ================================================================== *)
(** * Properties *)

(** A step of a computation returned: so did the step before it. *)
Ltac bind_ok H :=
  match type of H with
  | bind ?m _ = Ok _ =>
      let E := fresh "E" in
      destruct m eqn:E; cbn [bind] in H;
      [ | discriminate H | discriminate H ]
  end.

(** As [bind_ok], leaving the other hypotheses as they are. *)
Ltac bind_in H :=
  match type of H with
  | bind ?m _ = Ok _ =>
      let E := fresh "E" in
      let x := fresh "a" in
      remember m as x eqn:E in H; symmetry in E;
      destruct x; cbn [bind] in H;
      [ | discriminate H | discriminate H ]
  end.

(** A loop whose body has thrown goes through the rest without a
    change. *)
Lemma foldM_stops {S A : Type} (f : S -> A -> result S) (l : list A)
    (r : result S) :
  (forall s, r <> Ok s) ->
  fold_left (fun acc a => s <- acc ;; f s a) l r = r.
Proof.
  induction l as [| a l IH]; intros Hr; [reflexivity |].
  cbn [fold_left]. destruct r as [s | e |]; [destruct (Hr s eq_refl) | |];
    apply IH; discriminate.
Qed.

(** A loop that goes on only while its body returns keeps what every
    turn of the body keeps; [I] may speak of the elements gone through. *)
Lemma foldM_invariant {S A : Type} (f : S -> A -> result S)
    (I : list A -> S -> Prop) (l : list A) :
  (forall done a s s', I done s -> f s a = Ok s' -> I (done ++ [a]) s') ->
  forall done s0 s',
  I done s0 ->
  fold_left (fun acc a => s <- acc ;; f s a) l (Ok s0) = Ok s' ->
  I (done ++ l) s'.
Proof.
  intros Hstep. induction l as [| a l IH]; intros done s0 s' H0 H.
  - injection H as <-. rewrite app_nil_r. exact H0.
  - cbn [fold_left bind] in H.
    destruct (f s0 a) as [s1 | e |] eqn:Hf.
    + replace (done ++ a :: l) with ((done ++ [a]) ++ l)
        by (rewrite <- app_assoc; reflexivity).
      apply (IH _ s1); [exact (Hstep _ _ _ _ H0 Hf) | exact H].
    + rewrite foldM_stops in H; discriminate.
    + rewrite foldM_stops in H; discriminate.
Qed.

(** ** Bounds *)

Section BoundsProperties.
Context {lib : Collaborators}.

(** The loop of [vg.bounds] over the rest of an array, once a first rect
    is there: the rects of the elements are united from the left. *)
Lemma bounds_loop_unites (l : list value) (rs : list rect) :
  Forall2 (fun c r => vg.bounds c = Ok r) l rs ->
  forall r0 : rect,
  (fix loop (r : option rect) (l : list value) : result (option rect) :=
     match l with
     | [] => Ok r
     | o_i :: rest =>
         b <- vg.bounds o_i ;;
         loop (Some (match r with None => b | Some r => unite r b end)) rest
     end) (Some r0) l = Ok (Some (fold_left unite rs r0)).
Proof.
  induction 1 as [| c r l rs Hc _ IH]; intros r0; simpl.
  - reflexivity.
  - rewrite Hc. simpl. apply IH.
Qed.

(** What [unite] gives encloses both rects. *)
Lemma unite_encloses (a b : rect) :
  encloses (unite a b) a /\ encloses (unite a b) b.
Proof.
  destruct a as [ax ay aw ah], b as [bx by_ bw bh].
  unfold encloses; simpl.
  pose proof (Q.le_min_l ax bx). pose proof (Q.le_min_r ax bx).
  pose proof (Q.le_min_l ay by_). pose proof (Q.le_min_r ay by_).
  pose proof (Q.le_max_l (ax + aw) (bx + bw)).
  pose proof (Q.le_max_r (ax + aw) (bx + bw)).
  pose proof (Q.le_max_l (ay + ah) (by_ + bh)).
  pose proof (Q.le_max_r (ay + ah) (by_ + bh)).
  repeat split; lra.
Qed.

Lemma encloses_trans (a b c : rect) :
  encloses a b -> encloses b c -> encloses a c.
Proof.
  unfold encloses. intros (? & ? & ? & ?) (? & ? & ? & ?).
  repeat split; lra.
Qed.

(** The rects united from the left are all enclosed in the result. *)
Lemma fold_unite_encloses (rs : list rect) :
  forall r0 : rect,
  Forall (encloses (fold_left unite rs r0)) (r0 :: rs).
Proof.
  induction rs as [| r rs IH]; intros r0; cbn [fold_left].
  - constructor; [| constructor]. unfold encloses. repeat split; lra.
  - specialize (IH (unite r0 r)). inversion IH as [| ? ? Hu Hrs]; subst.
    destruct (unite_encloses r0 r) as [H0 Hr].
    constructor; [exact (encloses_trans Hu H0) |].
    constructor; [exact (encloses_trans Hu Hr) | exact Hrs].
Qed.

(** C4: the bounds of an empty array are the zero rect at the origin, the
    bounds of a point are the rect of size zero at that point, the bounds
    of an array of shapes are the bounds of its elements united, a rect
    that encloses each of them, and the bounds of
    [(0,0), (4,0), (4,3), (0,3)] are [Rect(0, 0, 4, 3)]. *)
Theorem bounds_of_array :
  vg.bounds (VArray []) = Ok (Rect 0 0 0 0) /\
  (forall p : point, vg.bounds (VPoint p) = Ok (Rect (px p) (py p) 0 0)) /\
  (forall (first : value) (rest : list value) (r0 : rect) (rs : list rect),
      has_rgb first = Ok false ->
      vg.bounds first = Ok r0 ->
      Forall2 (fun c r => vg.bounds c = Ok r) rest rs ->
      vg.bounds (VArray (first :: rest)) = Ok (fold_left unite rs r0) /\
      Forall (encloses (fold_left unite rs r0)) (r0 :: rs)) /\
  vg.bounds (VArray [VPoint (Point 0 0); VPoint (Point 4 0);
                     VPoint (Point 4 3); VPoint (Point 0 3)])
  = Ok (Rect 0 0 4 3).
Proof.
  split; [reflexivity |]. split; [reflexivity |]. split; [| reflexivity].
  intros first rest r0 rs Hrgb Hfirst Hrest.
  cbn [vg.bounds]. rewrite Hrgb. cbn [bind].
  fold vg.bounds. rewrite Hfirst. cbn [bind].
  rewrite (bounds_loop_unites Hrest).
  split; [reflexivity | apply fold_unite_encloses].
Qed.

(** C10: a single color value makes [vg.bounds] throw: that branch calls
    [new vg.Rect(0, 0, 30, 30)], and the file never defines [vg.Rect]. *)
Theorem bounds_of_color_throws :
  vg.has "Rect" = false /\
  forall c : color, vg.bounds (VColor c) = Throw TypeError.
Proof.
  split; [reflexivity | intros c; reflexivity].
Qed.

End BoundsProperties.

Lemma bounds_of_array_witness :
  vg.bounds (lib := Sample.lib)
    (VArray [VPath Sample.square; VPoint (Point 3 (-2)); VArray []])
  = Ok (fold_left unite [Rect 3 (-2) 0 0; Rect 0 0 0 0] (Rect 0 0 1 1)).
Proof.
  refine (proj1 (proj1 (proj2 (proj2 (@bounds_of_array Sample.lib)))
                   _ _ _ _ _ _ _)).
  - reflexivity.
  - reflexivity.
  - repeat constructor.
Defined.

(** ** Missing shapes and invalid scopes *)

Section GuardProperties.
Context {lib : Collaborators} {ext : Externals}.

(** C2: with a shape and a bounding that are not null, a scope that is
    neither ['points'] nor ['paths'] makes [delete] throw
    [Error('Invalid scope.')]. *)
Theorem delete_invalid_scope (shape bounding : value)
    (scope : option string) (invert : bool) :
  shape <> VNull -> bounding <> VNull ->
  scope <> Some "points"%string -> scope <> Some "paths"%string ->
  vg.delete shape bounding scope invert = Throw (Error "Invalid scope."%string).
Proof.
  intros Hshape Hbounding Hpoints Hpaths.
  assert (Hs1 : vg.scope_is scope "points"%string = false).
  { destruct scope as [s |]; simpl; [| reflexivity].
    destruct (String.eqb_spec s "points"%string); [subst; congruence | reflexivity]. }
  assert (Hs2 : vg.scope_is scope "paths"%string = false).
  { destruct scope as [s |]; simpl; [| reflexivity].
    destruct (String.eqb_spec s "paths"%string); [subst; congruence | reflexivity]. }
  unfold vg.delete. rewrite Hs1, Hs2.
  destruct shape; try congruence; destruct bounding; try congruence;
    reflexivity.
Qed.


End GuardProperties.

Lemma delete_invalid_scope_witness :
  vg.delete (lib := Sample.lib) (VPath Sample.square)
    (VRect (Rect 0 0 1 1)) (Some "bogus-scope"%string) false
  = Throw (Error "Invalid scope."%string).
Proof.
  apply (@delete_invalid_scope Sample.lib); discriminate.
Defined.



(** ** Deleting points *)

Section DeleteProperties.
Context {lib : Collaborators}.
Variable R : rect.

Lemma deletePointItems_filters (invert : bool) (P : list point) :
  vg.deletePointItems (VRect R) invert (map VPoint P)
  = Ok (map VPoint (kept R invert P)).
Proof.
  induction P as [| [x y] P IH]; [reflexivity |].
  cbn [map vg.deletePointItems coordinates object bind fst snd].
  unfold vg.keeps, vg.contains. cbn [number bind px py].
  rewrite IH. unfold kept, inside.
  destruct invert; cbn [bind filter px py];
    destruct (method_contains (VRect R) x y); reflexivity.
Qed.

Lemma delete_points_filters (invert : bool) (P : list point) :
  vg.delete (VArray (map VPoint P)) (VRect R) (Some "points"%string) invert
  = Ok (VArray (map VPoint (kept R invert P))).
Proof.
  unfold vg.delete. cbn [vg.scope_is String.eqb].
  destruct P as [| p P]; [reflexivity |].
  change (String.eqb "points" "points") with true. cbv iota.
  cbn [vg.deletePoints map isPointArray has_xy object bind].
  change (VPoint p :: map VPoint P) with (map VPoint (p :: P)).
  rewrite deletePointItems_filters. reflexivity.
Qed.

(** C8: on an array of points, [delete] with scope ['points'] keeps the
    points outside the rect, and with [invert] the points inside it; each
    point of the array is kept by exactly one of the two calls, and the
    two results together are the array, up to the order. *)
Theorem delete_points_complementary (P : list point) :
  vg.delete (VArray (map VPoint P)) (VRect R) (Some "points"%string) false
  = Ok (VArray (map VPoint (kept R false P))) /\
  vg.delete (VArray (map VPoint P)) (VRect R) (Some "points"%string) true
  = Ok (VArray (map VPoint (kept R true P))) /\
  (forall p : point, In p P ->
     (In p (kept R false P) /\ ~ In p (kept R true P)) \/
     (In p (kept R true P) /\ ~ In p (kept R false P))) /\
  (forall p : point, In p (kept R false P) \/ In p (kept R true P) <-> In p P) /\
  Permutation (kept R true P ++ kept R false P) P.
Proof.
  split; [apply delete_points_filters |].
  split; [apply delete_points_filters |].
  unfold kept. split; [| split].
  - intros p Hp. destruct (inside R p) eqn:Hin.
    + right. split.
      * apply filter_In. auto.
      * intros H. apply filter_In in H. rewrite Hin in H.
        destruct H; discriminate.
    + left. split.
      * apply filter_In. rewrite Hin. auto.
      * intros H. apply filter_In in H. rewrite Hin in H.
        destruct H; discriminate.
  - intros p. rewrite !filter_In. split.
    + intros [[H _] | [H _]]; exact H.
    + intros H. destruct (inside R p); auto.
  - induction P as [| p P IH]; [constructor |].
    cbn [filter]. destruct (inside R p); cbn [negb app].
    + constructor. exact IH.
    + apply Permutation_sym, Permutation_cons_app, Permutation_sym, IH.
Qed.

End DeleteProperties.

(** ** Snapping *)

Section SnapProperties.






Section Again.
Variables (d : Q) (c : point).

(** The body of the loop over the commands of a Path in [vg.snap]. *)
Let step (acc : result path) (cmd : command) : result path :=
  p <- acc ;; vg.snapCommand d 1 c p cmd.








End Again.







End SnapProperties.


Section Rounding.
Import PrimFloat.
Local Open Scope float_scope.


End Rounding.

(** ** Wiggling *)

Section WiggleProperties.
Context {lib : Collaborators}.









End WiggleProperties.

Lemma lcg_range (g min max : Q) :
  min == 0 -> max == 1 ->
  0 <= fst (Sample.lcg g min max) /\ fst (Sample.lcg g min max) < 1.
Proof.
  intros Hmin Hmax. unfold Sample.lcg, Sample.modulo. cbn [fst].
  set (n := g * 9301 + 49297).
  pose proof (Qfloor_le (n / 233280)) as Hle.
  pose proof (Qlt_floor (n / 233280)) as Hlt.
  rewrite inject_Z_plus in Hlt. change (inject_Z 1) with 1 in Hlt.
  set (f := inject_Z (Qfloor (n / 233280))) in *.
  assert (En : n / 233280 == n * (1 # 233280)) by field.
  rewrite En in Hle, Hlt.
  assert (E : min + (n - 233280 * f) / 233280 * (max - min)
              == n * (1 # 233280) - f).
  { rewrite Hmin, Hmax. field. }
  rewrite E. split; lra.
Qed.


(** ** Scattering points *)

Section ScatterProperties.
Context {lib : Collaborators}.
Variable b : rect.
Variable paths : list (list point).

Hypothesis rand_range :
  forall g : rng, 0 <= fst (rand g 0 1) /\ fst (rand g 0 1) < 1.
Hypothesis width_positive : 0 <= rwidth b.
Hypothesis height_positive : 0 <= rheight b.

(** The point lies within the rect, its sides included. *)
Let within (q : point) : Prop :=
  rx b <= px q /\ px q <= rx b + rwidth b /\
  ry b <= py q /\ py q <= ry b + rheight b.

Lemma scaled_draw_range (r size : Q) :
  0 <= r -> r < 1 -> 0 <= size -> 0 <= r * size /\ r * size <= size.
Proof.
  intros H0 H1 Hs. split.
  - apply Qmult_le_0_compat; assumption.
  - assert (H : 0 <= (1 - r) * size) by (apply Qmult_le_0_compat; lra).
    assert (E : (1 - r) * size == size - r * size) by ring.
    rewrite E in H. lra.
Qed.

Lemma place_within (tries : nat) :
  forall (g : rng) (q : point),
  fst (vg.place tries b paths g) = Some q -> within q.
Proof.
  induction tries as [| tries IH]; intros g q H; [discriminate H |].
  cbn [vg.place] in H.
  destruct (Nat.odd _) in H.
  - cbn [fst] in H. injection H as <-. unfold within. cbn [px py].
    destruct (rand_range g) as [H0 H1].
    destruct (rand_range (snd (rand g 0 1))) as [H2 H3].
    destruct (scaled_draw_range H0 H1 width_positive).
    destruct (scaled_draw_range H2 H3 height_positive).
    repeat split; lra.
  - exact (IH _ _ H).
Qed.

Lemma scatter_length (amount : nat) :
  forall g : rng, (List.length (vg.scatter amount b paths g) <= amount)%nat.
Proof.
  induction amount as [| amount IH]; intros g; cbn [vg.scatter];
    [apply Nat.le_refl |].
  destruct (fst (vg.place 100 b paths g)); cbn [List.length].
  - apply le_n_S, IH.
  - apply Nat.le_trans with amount; [apply IH | apply Nat.le_succ_diag_r].
Qed.

Lemma scatter_within (amount : nat) :
  forall g : rng, Forall within (vg.scatter amount b paths g).
Proof.
  induction amount as [| amount IH]; intros g; cbn [vg.scatter];
    [constructor |].
  destruct (fst (vg.place 100 b paths g)) as [q |] eqn:Hq.
  - constructor; [exact (place_within _ _ Hq) | apply IH].
  - apply IH.
Qed.

End ScatterProperties.

Section ScatterPoints.
Context {lib : Collaborators}.

(** C6, as the code has it: on a Path whose bounds have a width and a
    height that are not negative, with a generator that draws from
    [0, 1), [scatterPoints] returns an array of at most [amount] points,
    each of them within the bounds of the Path; and with a seed given it
    leaves the state of [Math.random] alone. *)
Theorem scatterPoints_within_bounds (p : path) (amount : nat)
    (seed : option Q) (w : world) :
  (forall g : rng, 0 <= fst (rand g 0 1) /\ fst (rand g 0 1) < 1) ->
  0 <= rwidth (method_bounds (VPath p)) ->
  0 <= rheight (method_bounds (VPath p)) ->
  exists points : list point,
    vg.scatterPoints (VPath p) amount seed w
    = (Ok (VArray (map VPoint points)), snd (vg.seed_of seed w)) /\
    (List.length points <= amount)%nat /\
    Forall (fun q =>
              let b := method_bounds (VPath p) in
              rx b <= px q /\ px q <= rx b + rwidth b /\
              ry b <= py q /\ py q <= ry b + rheight b) points.
Proof.
  intros Hrand Hw Hh. unfold vg.scatterPoints. cbn [falsy bind].
  destruct (vg.seed_of seed w) as [s w'] eqn:Hseed. cbn [snd].
  eexists. split; [reflexivity |]. split.
  - apply scatter_length.
  - apply scatter_within; assumption.
Qed.

End ScatterPoints.

Lemma scatterPoints_within_bounds_witness :
  exists points : list point,
    vg.scatterPoints (lib := Sample.lib) (VPath Sample.square) 50 (Some 1)
                     0
    = (Ok (VArray (map VPoint points)), 0) /\
    (List.length points <= 50)%nat /\
    Forall (fun q => 0 <= px q /\ px q <= 0 + 1 /\
                     0 <= py q /\ py q <= 0 + 1) points.
Proof.
  apply (@scatterPoints_within_bounds Sample.lib Sample.square 50 (Some 1)
           0).
  - intros g. apply lcg_range; reflexivity.
  - discriminate.
  - discriminate.
Defined.

(** C6 as stated fails on an array, which has no [bounds] method to
    call. *)
Lemma scatterPoints_of_array_throws :
  vg.scatterPoints (lib := Sample.lib)
    (VArray [VPoint (Point 0 0); VPoint (Point 4 0);
             VPoint (Point 4 3); VPoint (Point 0 3)]) 50 (Some 1) 0
  = (Throw TypeError, 0).
Proof.
  reflexivity.
Qed.

(** ** Fitting *)

Section Extent.














End Extent.

Section FitProperties.
Context {lib : Collaborators}.














End FitProperties.



(* ================================================================== *)
(** * The commands run on examples, with the sample collaborators *)

(** A point on the side of the rect: the sample rect counts its sides as
    inside, so [delete] drops the point and the inverted [delete] keeps
    it. *)
Example delete_boundary_point :
  let P := [VPoint (Point 0 0); VPoint (Point 1 (1 # 2));
            VPoint (Point 2 2)] in
  let R := VRect (Rect 0 0 1 1) in
  vg.delete (lib := Sample.lib) (VArray P) R (Some "points"%string) false
  = Ok (VArray [VPoint (Point 2 2)]) /\
  vg.delete (lib := Sample.lib) (VArray P) R (Some "points"%string) true
  = Ok (VArray [VPoint (Point 0 0); VPoint (Point 1 (1 # 2))]).
Proof.
  split; reflexivity.
Qed.

(** Deleting every point of a closed Path leaves its [CLOSE] command,
    which the loop turns into a [MOVETO] without coordinates. *)
Example delete_all_points_of_square :
  vg.delete (lib := Sample.lib) (VPath Sample.square)
    (VRect (Rect (-1) (-1) 3 3)) (Some "points"%string) false
  = Ok (VPath (bare_path
                 [Cmd bezier.MOVETO None None None None None None])).
Proof.
  reflexivity.
Qed.

(** Snapping to a grid of 1/2. *)
Example snap_to_half :
  same_outcome value_eq
    (vg.snap (VArray [VPoint (Point (3 # 10) (7 # 10));
                      VPoint (Point (46 # 10) 0)])
             (1 # 2) (Some 1) None)
    (Ok (VArray [VPoint (Point (1 # 2) (1 # 2)); VPoint (Point (9 # 2) 0)])).
Proof.
  vm_compute. repeat constructor.
Qed.

(** [snap] stops at a [QUADTO] command. *)
Example snap_quadTo_throws :
  vg.snap (VPath (bare_path [MoveTo 0 0; QuadTo 1 1 2 0])) 1 None None
  = Throw (Error "Invalid path command [object Object]").
Proof.
  reflexivity.
Qed.

(** A Path without contours has no inside: every placement fails and no
    point is returned. *)
Example scatterPoints_may_drop :
  vg.scatterPoints (lib := Sample.lib) (VPath (bare_path [])) 3 (Some 1) 0
  = (Ok (VArray []), 0).
Proof.
  vm_compute. reflexivity.
Qed.

(** Without a seed the result of [wigglePoints] follows the state that
    [Math.random] draws from. *)
Example wigglePoints_unseeded :
  fst (vg.wigglePoints (lib := Sample.lib) (VArray [VPoint (Point 0 0)])
         (ANumber 1) None 0)
  <> fst (vg.wigglePoints (lib := Sample.lib) (VArray [VPoint (Point 0 0)])
            (ANumber 1) None 1).
Proof.
  vm_compute. discriminate.
Qed.

(* ================================================================== *)
(** * More properties of the commands *)

Lemma Qle_bool_false (a b : Q) : Qle_bool a b = false -> b < a.
Proof.
  intros H. apply Qnot_le_lt. intros L. apply Qle_bool_iff in L. congruence.
Qed.

(** ** Groups *)

Section UngroupProperties.

Lemma ungroup_cons_path (p : path) (rest : list value) :
  vg.ungroup (VGroup (VPath p :: rest))
  = (r <- vg.ungroup (VGroup rest) ;; Ok (VPath p :: r)).
Proof. reflexivity. Qed.

Lemma ungroup_cons_group (g rest : list value) :
  vg.ungroup (VGroup (VGroup g :: rest))
  = (sub <- vg.ungroup (VGroup g) ;;
     r <- vg.ungroup (VGroup rest) ;; Ok (sub ++ r)).
Proof. reflexivity. Qed.

(** A list of Paths is its own flattening. *)
Lemma ungroup_paths (l : list value) :
  forallb isPath l = true -> vg.ungroup (VGroup l) = Ok l.
Proof.
  induction l as [| s l IH]; [reflexivity |].
  cbn [forallb]. intros H. apply andb_prop in H as [Hs Hl].
  destruct s; try discriminate Hs.
  rewrite ungroup_cons_path, (IH Hl). reflexivity.
Qed.

(** X1: [ungroup] returns Paths only, and flattening what it returned
    changes nothing. *)
Theorem ungroup_only_paths (shape : value) (l : list value) :
  vg.ungroup shape = Ok l ->
  forallb isPath l = true /\ vg.ungroup (VGroup l) = Ok l.
Proof.
  intros H.
  assert (Hp : forallb isPath l = true).
  { revert l H.
    induction shape as [| | p | r | col | p | shapes IH | items IH]
      using value_induction; intros l H; try (injection H as <-; reflexivity).
    revert l H. induction IH as [| s shapes Hs _ IHl]; intros l H.
    - injection H as <-. reflexivity.
    - destruct s; try discriminate H;
        try (exact (IHl _ H)).
      + rewrite ungroup_cons_path in H.
        remember (vg.ungroup (VGroup shapes)) as m eqn:E in H.
        destruct m as [a | |]; try discriminate H. injection H as <-.
        cbn [forallb isPath]. exact (IHl _ (eq_sym E)).
      + rewrite ungroup_cons_group in H.
        remember (vg.ungroup (VGroup shapes0)) as m eqn:E in H.
        destruct m as [a | |]; try discriminate H. cbn [bind] in H.
        remember (vg.ungroup (VGroup shapes)) as m' eqn:E' in H.
        destruct m' as [b | |]; try discriminate H. injection H as <-.
        rewrite forallb_app, (Hs _ (eq_sym E)), (IHl _ (eq_sym E')).
        reflexivity. }
  split; [exact Hp | exact (ungroup_paths _ Hp)].
Qed.

(** X2: The flattening of a Group is made of the flattenings of its parts,
    so a Group inside a Group counts for its elements. *)
Theorem ungroup_discards_nesting (before inner after : list value) :
  vg.ungroup (VGroup (before ++ after))
  = (a <- vg.ungroup (VGroup before) ;;
     b <- vg.ungroup (VGroup after) ;; Ok (a ++ b)) /\
  vg.ungroup (VGroup (before ++ VGroup inner :: after))
  = vg.ungroup (VGroup (before ++ inner ++ after)).
Proof.
  assert (Happ : forall a b,
             vg.ungroup (VGroup (a ++ b))
             = (ra <- vg.ungroup (VGroup a) ;;
                rb <- vg.ungroup (VGroup b) ;; Ok (ra ++ rb))).
  { induction a as [| s a IH]; intros b.
    - cbn [app]. change (vg.ungroup (VGroup [])) with (Ok (@nil value)).
      cbn [bind]. destruct (vg.ungroup (VGroup b)); reflexivity.
    - cbn [app]. destruct s; try reflexivity; try (exact (IH b)).
      + rewrite !ungroup_cons_path, IH.
        destruct (vg.ungroup (VGroup a)); [| reflexivity | reflexivity].
        cbn [bind]. destruct (vg.ungroup (VGroup b)); reflexivity.
      + rewrite !ungroup_cons_group, IH.
        destruct (vg.ungroup (VGroup shapes)); [| reflexivity | reflexivity].
        cbn [bind].
        destruct (vg.ungroup (VGroup a)); [| reflexivity | reflexivity].
        cbn [bind]. destruct (vg.ungroup (VGroup b)); [| reflexivity | reflexivity].
        cbn [bind]. rewrite app_assoc. reflexivity. }
  split; [apply Happ |].
  rewrite !Happ, ungroup_cons_group. reflexivity.
Qed.

End UngroupProperties.

Lemma ungroup_only_paths_witness :
  forallb isPath [VPath Sample.square; VPath (bare_path [])] = true /\
  vg.ungroup (VGroup [VPath Sample.square; VPath (bare_path [])])
  = Ok [VPath Sample.square; VPath (bare_path [])].
Proof.
  apply (@ungroup_only_paths
           (VGroup [VPath Sample.square; VPoint (Point 0 0);
                    VGroup [VArray []; VPath (bare_path [])]])).
  reflexivity.
Defined.

Section MergeProperties.

Lemma flatten_path_arguments (args : list (path + list path)) :
  flatten (map path_argument args) = map VPath (flat_map paths_of args).
Proof.
  induction args as [| a args IH]; [reflexivity |].
  unfold flatten in *. cbn [map flat_map]. rewrite IH, map_app.
  destruct a; reflexivity.
Qed.

(** X3: [merge] leaves out the arguments that are missing and the empty
    arrays, also those inside an array; and of Paths and arrays of Paths
    it makes the Group that [ungroup] turns back into these Paths, in the
    order they were given. *)
Theorem merge_then_ungroup (arguments : list value)
    (args : list (path + list path)) :
  (exists shapes,
      vg.merge arguments = VGroup shapes /\
      Forall (fun s => falsy s = false /\ s <> VArray []) shapes /\
      (forall s, In s shapes -> In s (flatten arguments))) /\
  vg.ungroup (vg.merge (map path_argument args))
  = Ok (map VPath (flat_map paths_of args)).
Proof.
  split.
  - eexists. split; [reflexivity |]. split.
    + apply Forall_forall. intros s Hs. apply filter_In in Hs as [_ Hs].
      unfold vg.mergeable in Hs. apply andb_prop in Hs as [H1 H2].
      split.
      * destruct (falsy s); [discriminate H1 | reflexivity].
      * intros ->. discriminate H2.
    + intros s Hs. apply filter_In in Hs as [Hs _]. exact Hs.
  - unfold vg.merge. rewrite flatten_path_arguments.
    assert (H : forall ps : list path,
               filter vg.mergeable (map VPath ps) = map VPath ps).
    { induction ps as [| q ps IH]; [reflexivity |].
      cbn [map filter vg.mergeable falsy negb andb]. rewrite IH.
      reflexivity. }
    rewrite H. apply ungroup_paths.
    induction (flat_map paths_of args); [reflexivity | assumption].
Qed.

End MergeProperties.

Section ConnectProperties.
Context {ext : Externals}.

Lemma connectPoints_loop (pts : list point) :
  forall (i : nat) (p : path),
  (fix loop (i : nat) (l : list value) (p : path) : result path :=
     match l with
     | [] => Ok p
     | pt :: rest =>
         c <- coordinates pt ;;
         let tag := match i with
                    | O => bezier.MOVETO
                    | S _ => bezier.LINETO
                    end in
         loop (S i) rest
              (push p (Cmd tag (fst c) (snd c) None None None None))
     end) i (map VPoint pts) p
  = Ok (Path (commands p ++ polyline i pts) (fill p) (stroke p)
             (strokeWidth p)).
Proof.
  induction pts as [| q pts IH]; intros i p.
  - cbn [map polyline]. rewrite app_nil_r. destruct p; reflexivity.
  - cbn [map polyline coordinates object bind fst snd]. rewrite IH.
    cbn [push commands fill stroke strokeWidth]. rewrite <- app_assoc.
    destruct i; reflexivity.
Qed.

Lemma toPoints_polyline (pts : list point) :
  forall (i : nat) (tail : list command) (attributes : path),
  (forall cmd, In cmd tail -> cx cmd = None) ->
  vg.toPoints (VPath (Path (polyline i pts ++ tail) (fill attributes)
                           (stroke attributes) (strokeWidth attributes)))
  = Ok pts.
Proof.
  induction pts as [| [x y] pts IH]; intros i tail attributes Htail.
  - cbn [polyline app vg.toPoints commands].
    induction tail as [| cmd tail IHt]; [reflexivity |].
    rewrite (Htail cmd (or_introl eq_refl)). apply IHt.
    intros c Hc. apply Htail. right. exact Hc.
  - specialize (IH (S i) tail attributes Htail).
    cbn [vg.toPoints commands] in IH |- *. cbn [polyline app px py].
    destruct i; cbn [MoveTo LineTo cx cy number bind]; rewrite IH;
      reflexivity.
Qed.

(** X4: The points of the Path that [connectPoints] makes of an array of
    points are these points again, whether the Path is closed or not;
    the Path has a command for each point, and one more when closed. *)
Theorem connectPoints_then_toPoints (pts : list point) (closed : bool) :
  exists p : path,
    vg.connectPoints (VArray (map VPoint pts)) closed = Ok (VPath p) /\
    commands p = polyline 0 pts ++ (if closed then [Close] else []) /\
    fill p = None /\ stroke p = Some Color_BLACK /\
    vg.toPoints (VPath p) = Ok pts.
Proof.
  unfold vg.connectPoints. cbn [falsy].
  rewrite connectPoints_loop. cbn [bind bare_path commands app].
  eexists. split; [reflexivity |].
  destruct closed; cbn [close push commands fill stroke strokeWidth].
  - split; [reflexivity |]. split; [reflexivity |]. split; [reflexivity |].
    apply (toPoints_polyline pts 0 [Close]
             (Path [] None (Some Color_BLACK) None)).
    intros cmd [<- | []]. reflexivity.
  - split; [rewrite app_nil_r; reflexivity |].
    split; [reflexivity |]. split; [reflexivity |].
    rewrite <- (app_nil_r (polyline 0 pts)).
    apply (toPoints_polyline pts 0 []
             (Path [] None (Some Color_BLACK) None)).
    intros cmd [].
Qed.

End ConnectProperties.

(** ** Deleting *)

Section DeletePathProperties.
Context {lib : Collaborators}.

(** Whether a contour is to start after these commands. *)
Let opens (opening : bool) (cmds : list command) : bool :=
  fold_left (fun _ cmd => bezier.eqb (ctype cmd) bezier.CLOSE) cmds opening.

Lemma well_started_app (a b : list command) :
  forall opening,
  well_started opening (a ++ b)
  = well_started opening a && well_started (opens opening a) b.
Proof.
  induction a as [| cmd a IH]; intros opening; [reflexivity |].
  cbn [app well_started]. rewrite IH, andb_assoc. reflexivity.
Qed.

(** X6: What [deletePoints] leaves of a Path starts every contour with a
    [MOVETO]: the first command kept, and the first one kept after a
    [CLOSE], is made one.  It has no more commands than the Path, and the
    attributes of the Path. *)
Theorem deletePoints_starts_contours (p : path) (bounding : value)
    (invert : bool) (out : value) :
  vg.deletePoints (VPath p) bounding invert = Ok out ->
  exists q : path,
    out = VPath q /\
    well_started true (commands q) = true /\
    (List.length (commands q) <= List.length (commands p))%nat /\
    fill q = fill p /\ stroke q = stroke p /\ strokeWidth q = strokeWidth p.
Proof.
  cbn [vg.deletePoints]. intros H. bind_ok H. injection H as <-.
  eexists. split; [reflexivity |].
  cbn [commands fill stroke strokeWidth].
  pose (I := fun (done : list command) (st : list command * bool) =>
               well_started true (fst st) = true /\
               snd st = opens true (fst st) /\
               (List.length (fst st) <= List.length done)%nat).
  assert (HI : I ([] ++ commands p) a).
  { apply (foldM_invariant (vg.deleteCommand bounding invert) I)
      with (s0 := ([], true)); [| repeat split; auto | exact E].
    clear. unfold I. intros done cmd [kept newCurve] st' (Hw & Hn & Hl) Hstep.
    cbn [fst snd] in Hw, Hn, Hl. unfold vg.deleteCommand in Hstep.
    remember (_cloneCommand cmd) as c eqn:Hc. clear Hc.
    bind_ok Hstep. rewrite length_app. cbn [List.length].
    destruct a.
    - injection Hstep as <-. cbn [fst snd].
      rewrite well_started_app, Hw, length_app. cbn [List.length andb].
      unfold opens in *. rewrite fold_left_app. cbn [fold_left].
      rewrite <- Hn. cbn [well_started].
      destruct newCurve; destruct (ctype c) eqn:Ht;
        cbn [bezier.eqb negb andb ctype]; rewrite ?Ht;
        cbn [bezier.eqb negb andb ctype]; repeat split; try reflexivity;
        lia.
    - injection Hstep as <-. cbn [fst snd].
      repeat split; auto. lia. }
  destruct HI as (Hw & _ & Hl). repeat split; assumption.
Qed.

End DeletePathProperties.

Lemma deletePoints_starts_contours_witness :
  exists q : path,
    VPath (bare_path [MoveTo 1 0; Close; MoveTo 2 2; LineTo 3 3]) = VPath q /\
    well_started true (commands q) = true /\
    (List.length (commands q) <= 6)%nat /\
    fill q = None /\ stroke q = None /\ strokeWidth q = None.
Proof.
  apply (@deletePoints_starts_contours Sample.lib
           (bare_path [MoveTo 0 0; LineTo 1 0; Close;
                       MoveTo 0 0; LineTo 2 2; LineTo 3 3])
           (VRect (Rect (-1) (-1) (3 # 2) (3 # 2))) false).
  vm_compute. reflexivity.
Defined.

(** ** Deleting paths *)

Lemma mapM_returns {A B : Type} (f : A -> result B) (l : list A)
    (r : list B) :
  mapM f l = Ok r <-> Forall2 (fun a b => f a = Ok b) l r.
Proof.
  revert r. induction l as [| a l IH]; intros r; split; intros H.
  - injection H as <-. constructor.
  - inversion H. reflexivity.
  - cbn [mapM] in H. bind_in H. bind_in H. injection H as <-.
    constructor; [exact E | apply IH; exact E0].
  - inversion H as [| ? b ? bs Ha Hl]; subst. cbn [mapM].
    rewrite Ha. cbn [bind]. apply IH in Hl. rewrite Hl. reflexivity.
Qed.

Section DeletePathsProperties.
Context {lib : Collaborators}.

Lemma deletePaths_of_paths (ps : list path) (bounding : value)
    (invert : bool) :
  vg.deletePaths (VArray (map VPath ps)) bounding invert
  = (sels <- mapM (fun p => vg.selected bounding (commands p)) ps ;;
     Ok (VArray (map VPath (chosen invert ps sels)))).
Proof.
  induction ps as [| p ps IH]; [reflexivity |].
  cbn [map vg.deletePaths mapM] in *.
  destruct (vg.selected bounding (commands p)) as [sel | |];
    cbn [bind]; try reflexivity.
  match type of IH with
  | bind ?m _ = _ => destruct m as [ns | |]
  end; cbn [bind] in *;
    destruct (mapM _ ps) as [sels | |]; cbn [bind] in *;
    try discriminate IH; try reflexivity; try exact IH.
  injection IH as ->. unfold chosen. cbn [combine filter snd].
  destruct sel, invert; reflexivity.
Qed.

Lemma chosen_parts (bounding : value) (ps : list path) (sels : list bool) :
  Forall2 (fun p s => vg.selected bounding (commands p) = Ok s) ps sels ->
  Permutation (chosen false ps sels ++ chosen true ps sels) ps /\
  forall v,
    Forall (fun p => vg.selected bounding (commands p) = Ok v)
           (chosen v ps sels).
Proof.
  induction 1 as [| p s ps sels Hp _ [IHp IHf]].
  - split; [constructor | intros v; constructor].
  - unfold chosen in *. cbn [combine filter snd]. split.
    + destruct s; cbn [Bool.eqb map fst app].
      * symmetry. apply Permutation_cons_app. symmetry. exact IHp.
      * constructor. exact IHp.
    + intros v. destruct (Bool.eqb s v) eqn:E; [| apply IHf].
      apply eqb_prop in E. subst v. cbn [map fst].
      constructor; [exact Hp | apply IHf].
Qed.

Lemma deletePaths_of_chosen (bounding : value) (v invert : bool)
    (ps : list path) :
  Forall (fun p => vg.selected bounding (commands p) = Ok v) ps ->
  vg.deletePaths (VArray (map VPath ps)) bounding invert
  = Ok (VArray (map VPath (if Bool.eqb v invert then ps else []))).
Proof.
  intros H. rewrite deletePaths_of_paths.
  assert (Hm : mapM (fun p => vg.selected bounding (commands p)) ps
               = Ok (map (fun _ => v) ps)).
  { apply mapM_returns. induction H; constructor; assumption. }
  rewrite Hm. cbn [bind]. do 3 f_equal. clear. unfold chosen.
  induction ps as [| p ps IH]; [destruct (Bool.eqb v invert); reflexivity |].
  cbn [map combine filter snd].
  destruct (Bool.eqb v invert); cbn [map fst]; rewrite IH; reflexivity.
Qed.

(** X7: Deleting the paths that [bounding] selects, of an array of Paths:
    what the deletion keeps and what the inverted deletion keeps are,
    together, the Paths of the array; the first are those no point of
    which lies in [bounding], the others those with such a point.
    Deleting once more changes nothing, and the inverted deletion of what
    was kept leaves nothing. *)
Theorem deletePaths_partitions (ps : list path) (bounding out : value) :
  vg.deletePaths (VArray (map VPath ps)) bounding false = Ok out ->
  exists kept gone : list path,
    out = VArray (map VPath kept) /\
    vg.deletePaths (VArray (map VPath ps)) bounding true
    = Ok (VArray (map VPath gone)) /\
    Permutation (kept ++ gone) ps /\
    Forall (fun p => vg.selected bounding (commands p) = Ok false) kept /\
    Forall (fun p => vg.selected bounding (commands p) = Ok true) gone /\
    vg.deletePaths out bounding false = Ok out /\
    vg.deletePaths out bounding true = Ok (VArray []).
Proof.
  intros H. rewrite deletePaths_of_paths in H. bind_ok H.
  injection H as <-. rename a into sels.
  exists (chosen false ps sels), (chosen true ps sels).
  apply mapM_returns in E.
  destruct (@chosen_parts bounding ps sels E) as [Hp Hf].
  split; [reflexivity |].
  split. { rewrite deletePaths_of_paths. apply mapM_returns in E.
           rewrite E. reflexivity. }
  split; [exact Hp |]. split; [apply Hf |]. split; [apply Hf |].
  split; rewrite (@deletePaths_of_chosen bounding false _ _ (Hf false));
    reflexivity.
Qed.

(** X8: [vg.deletePaths] never takes a Group out of a Group or an array,
    not even one it has emptied: the Groups of the result are as many as
    those of the shape, and what else it holds are Paths of the shape. *)
Theorem deletePaths_keeps_groups (shapes : list value) (bounding : value)
    (invert : bool) (out : value) :
  vg.deletePaths (VGroup shapes) bounding invert = Ok out ->
  exists newShapes : list value,
    out = VGroup newShapes /\
    vg.deletePaths (VArray shapes) bounding invert = Ok (VArray newShapes) /\
    List.length (filter isGroup newShapes)
    = List.length (filter isGroup shapes) /\
    Forall (fun s => isGroup s = true \/ isPath s = true /\ In s shapes)
           newShapes.
Proof.
  cbn [vg.deletePaths].
  match goal with |- bind (?f shapes) _ = _ -> _ => set (loop := f) end.
  intros H. bind_ok H. injection H as <-. exists a.
  split; [reflexivity |]. split; [reflexivity |].
  revert a E. induction shapes as [| s shapes IH]; intros a E.
  - injection E as <-. split; [reflexivity | constructor].
  - cbn [loop] in E. fold loop in E.
    destruct s; try discriminate E.
    all: try (destruct (IH a E) as [Hl Hf]; split; [exact Hl |];
              eapply Forall_impl; [| exact Hf];
              intros x [Hx | [Hx Hin]]; [left | right; split];
              auto using in_cons).
    + bind_in E. bind_in E. injection E as <-.
      destruct (IH _ E1) as [Hl Hf].
      assert (Hf' : Forall (fun s => isGroup s = true \/
                                     isPath s = true /\
                                     In s (VPath p :: shapes)) a1).
      { eapply Forall_impl; [| exact Hf].
        intros x [Hx | [Hx Hin]]; [left | right; split];
          auto using in_cons. }
      destruct (negb (invert && negb a0 || a0 && negb invert));
        cbn [filter isGroup]; split; auto.
      constructor; [right; split; [reflexivity | left; reflexivity] |].
      exact Hf'.
    + bind_in E. bind_in E. injection E as <-.
      destruct (IH _ E1) as [Hl Hf].
      assert (Hg : isGroup a0 = true).
      { cbn [vg.deletePaths] in E0. bind_in E0. injection E0 as <-.
        reflexivity. }
      cbn [filter isGroup]. rewrite Hg. cbn [List.length].
      split; [lia |].
      constructor; [left; exact Hg |].
      eapply Forall_impl; [| exact Hf].
      intros x [Hx | [Hx Hin]]; [left | right; split]; auto using in_cons.
Qed.

End DeletePathsProperties.

Lemma deletePaths_partitions_witness :
  exists kept gone : list path,
    VArray [VPath (bare_path [MoveTo 5 5; LineTo 6 6])]
    = VArray (map VPath kept) /\
    vg.deletePaths (lib := Sample.lib)
      (VArray (map VPath [Sample.square; bare_path [MoveTo 5 5; LineTo 6 6]]))
      (VRect (Rect 0 0 2 2)) true
    = Ok (VArray (map VPath gone)) /\
    Permutation (kept ++ gone)
                [Sample.square; bare_path [MoveTo 5 5; LineTo 6 6]] /\
    Forall (fun p => vg.selected (lib := Sample.lib) (VRect (Rect 0 0 2 2))
                                 (commands p) = Ok false) kept /\
    Forall (fun p => vg.selected (lib := Sample.lib) (VRect (Rect 0 0 2 2))
                                 (commands p) = Ok true) gone /\
    vg.deletePaths (lib := Sample.lib)
                   (VArray [VPath (bare_path [MoveTo 5 5; LineTo 6 6])])
                   (VRect (Rect 0 0 2 2)) false
    = Ok (VArray [VPath (bare_path [MoveTo 5 5; LineTo 6 6])]) /\
    vg.deletePaths (lib := Sample.lib)
                   (VArray [VPath (bare_path [MoveTo 5 5; LineTo 6 6])])
                   (VRect (Rect 0 0 2 2)) true
    = Ok (VArray []).
Proof.
  apply (@deletePaths_partitions Sample.lib
           [Sample.square; bare_path [MoveTo 5 5; LineTo 6 6]]
           (VRect (Rect 0 0 2 2))
           (VArray [VPath (bare_path [MoveTo 5 5; LineTo 6 6])])).
  vm_compute. reflexivity.
Defined.

Lemma deletePaths_keeps_groups_witness :
  exists newShapes : list value,
    VGroup [VGroup []; VPath (bare_path [MoveTo 5 5; LineTo 6 6])]
    = VGroup newShapes /\
    vg.deletePaths (lib := Sample.lib)
      (VArray [VGroup [VPath Sample.square]; VPoint (Point 1 1);
               VPath (bare_path [MoveTo 5 5; LineTo 6 6])])
      (VRect (Rect 0 0 2 2)) false
    = Ok (VArray newShapes) /\
    List.length (filter isGroup newShapes)
    = List.length
        (filter isGroup
           [VGroup [VPath Sample.square]; VPoint (Point 1 1);
            VPath (bare_path [MoveTo 5 5; LineTo 6 6])]) /\
    Forall (fun s => isGroup s = true \/
                     isPath s = true /\
                     In s [VGroup [VPath Sample.square]; VPoint (Point 1 1);
                           VPath (bare_path [MoveTo 5 5; LineTo 6 6])])
           newShapes.
Proof.
  apply (@deletePaths_keeps_groups Sample.lib
           [VGroup [VPath Sample.square]; VPoint (Point 1 1);
            VPath (bare_path [MoveTo 5 5; LineTo 6 6])]
           (VRect (Rect 0 0 2 2)) false
           (VGroup [VGroup []; VPath (bare_path [MoveTo 5 5; LineTo 6 6])])).
  vm_compute. reflexivity.
Defined.

(** ** Sorting *)

Lemma ltb_lt (a b : Q) : ltb a b = true <-> a < b.
Proof.
  unfold ltb. destruct (Qle_bool b a) eqn:E; cbn [negb]; split; intros H;
    try discriminate; try reflexivity.
  - apply Qle_bool_iff in E. lra.
  - apply Qle_bool_false in E. exact E.
Qed.

Lemma filter_parts {A : Type} (f : A -> bool) (l : list A) :
  Permutation (filter (fun a => negb (f a)) l ++ filter f l) l.
Proof.
  induction l as [| a l IH]; [constructor |].
  cbn [filter]. destruct (f a); cbn [negb app].
  - symmetry. apply Permutation_cons_app. symmetry. exact IH.
  - constructor. exact IH.
Qed.

Lemma insert_by_key_perm (k : Q) (v : value) (l : list (Q * value)) :
  Permutation (insert_by_key k v l) ((k, v) :: l).
Proof.
  induction l as [| [k' v'] l IH]; [reflexivity |].
  cbn [insert_by_key]. destruct (ltb k' k); [| reflexivity].
  rewrite IH. apply perm_swap.
Qed.

Lemma sort_by_key_perm (l : list (Q * value)) :
  Permutation (sort_by_key l) l.
Proof.
  induction l as [| [k v] l IH]; [constructor |].
  unfold sort_by_key in *. cbn [fold_right fst snd].
  rewrite insert_by_key_perm. constructor. exact IH.
Qed.

Lemma insert_by_key_sorted (k : Q) (v : value) (l : list (Q * value)) :
  StronglySorted (fun a b => fst a <= fst b) l ->
  StronglySorted (fun a b => fst a <= fst b) (insert_by_key k v l).
Proof.
  induction 1 as [| [k' v'] l Hs IH Hf].
  - repeat constructor.
  - cbn [insert_by_key]. destruct (ltb k' k) eqn:E.
    + apply ltb_lt in E. constructor; [exact IH |].
      eapply Permutation_Forall;
        [symmetry; apply insert_by_key_perm |].
      constructor; [cbn [fst]; lra | exact Hf].
    + assert (Hk : k <= k').
      { apply Qnot_lt_le. intros L. apply ltb_lt in L. congruence. }
      constructor; [constructor; assumption |].
      constructor; [exact Hk |].
      eapply Forall_impl; [| exact Hf].
      cbn [fst]. intros a Ha. lra.
Qed.

Lemma sort_by_key_sorted (l : list (Q * value)) :
  StronglySorted (fun a b => fst a <= fst b) (sort_by_key l).
Proof.
  induction l as [| [k v] l IH]; [constructor |].
  unfold sort_by_key in *. cbn [fold_right fst snd].
  apply insert_by_key_sorted, IH.
Qed.

Lemma sorted_by_key (key : value -> result Q) (l : list (Q * value)) :
  Forall (fun kv => key (snd kv) = Ok (fst kv)) l ->
  StronglySorted (fun a b => fst a <= fst b) l ->
  StronglySorted
    (fun a b => forall ka kb, key a = Ok ka -> key b = Ok kb -> ka <= kb)
    (map snd l).
Proof.
  intros Hk. induction 1 as [| [k v] l Hs IH Hf]; [constructor |].
  inversion Hk as [| ? ? Hv Hl]; subst. cbn [map snd fst] in *.
  constructor; [exact (IH Hl) |].
  apply Forall_map. rewrite Forall_forall in *.
  intros [k' v'] Hin ka kb Ha Hb. cbn [snd] in *.
  specialize (Hf _ Hin). specialize (Hl _ Hin). cbn [fst snd] in *.
  rewrite Hv in Ha. rewrite Hl in Hb.
  injection Ha as <-. injection Hb as <-. exact Hf.
Qed.

Lemma keys_combined {A B : Type} (f : A -> result B) (l : list A)
    (r : list B) :
  Forall2 (fun a b => f a = Ok b) l r ->
  Forall (fun kv => f (snd kv) = Ok (fst kv)) (combine r l) /\
  map snd (combine r l) = l.
Proof.
  induction 1 as [| a b l r Ha _ [IHf IHm]]; [split; constructor |].
  cbn [combine map snd]. split; [constructor; assumption |].
  rewrite IHm. reflexivity.
Qed.

Section SortProperties.
Context {lib : Collaborators}.

(** X10: [vg.shapeSort] with one of its four methods returns the elements of
    the array in another order: elements whose number is smaller come
    first, and the elements that are undefined come last. *)
Theorem shapeSort_sorts (items : list value) (method : vg.sort_method)
    (origin : option point) (key : value -> result Q) (out : value) :
  vg.sort_key method
    (match origin with Some o => o | None => Point_ZERO end) = Some key ->
  vg.shapeSort (VArray items) method origin = Ok out ->
  exists sorted : list value,
    out = VArray (sorted ++ filter vg.is_undefined items) /\
    Permutation sorted (filter (fun v => negb (vg.is_undefined v)) items) /\
    StronglySorted
      (fun a b => forall ka kb, key a = Ok ka -> key b = Ok kb -> ka <= kb)
      sorted /\
    Permutation (sorted ++ filter vg.is_undefined items) items.
Proof.
  intros Hkey H. unfold vg.shapeSort in H. cbn [falsy] in H.
  rewrite Hkey in H. bind_in H. injection H as <-. exists a.
  split; [reflexivity |].
  set (defined := filter (fun v => negb (vg.is_undefined v)) items) in *.
  assert (Ha : Permutation a defined /\
               StronglySorted
                 (fun a b => forall ka kb,
                      key a = Ok ka -> key b = Ok kb -> ka <= kb) a).
  { destruct defined as [| d1 [| d2 rest]].
    - injection E as <-. split; constructor.
    - injection E as <-. split; [reflexivity | repeat constructor].
    - bind_in E. injection E as <-. apply mapM_returns in E0.
      destruct (@keys_combined _ _ key _ _ E0) as [Hf Hm]. split.
      + rewrite sort_by_key_perm, Hm. reflexivity.
      + apply sorted_by_key; [| apply sort_by_key_sorted].
        eapply Permutation_Forall;
          [symmetry; apply sort_by_key_perm | exact Hf]. }
  destruct Ha as [Hp Hs]. split; [exact Hp |]. split; [exact Hs |].
  rewrite Hp. apply filter_parts.
Qed.

End SortProperties.

Lemma shapeSort_sorts_witness :
  let items := [VPoint (Point 3 0); VUndefined; VPoint (Point 1 5);
                VPoint (Point 2 0)] in
  exists sorted : list value,
    VArray [VPoint (Point 1 5); VPoint (Point 2 0); VPoint (Point 3 0);
            VUndefined]
    = VArray (sorted ++ filter vg.is_undefined items) /\
    Permutation sorted (filter (fun v => negb (vg.is_undefined v)) items) /\
    StronglySorted
      (fun a b => forall ka kb,
           vg._x (lib := Sample.lib) a = Ok ka ->
           vg._x (lib := Sample.lib) b = Ok kb -> ka <= kb)
      sorted /\
    Permutation (sorted ++ filter vg.is_undefined items) items.
Proof.
  apply (@shapeSort_sorts Sample.lib
           [VPoint (Point 3 0); VUndefined; VPoint (Point 1 5);
            VPoint (Point 2 0)]
           vg.by_x None).
  - reflexivity.
  - vm_compute. reflexivity.
Defined.

(** ** The point on a path *)

Lemma remainder1_range (t : Q) : -1 < remainder1 t < 1.
Proof.
  destruct t as [a b]. unfold remainder1, truncate. cbn [Qnum Qden].
  unfold Qlt, Qminus, Qplus, Qopp, inject_Z. cbn [Qnum Qden].
  pose proof (Z.quot_rem a (Zpos b) ltac:(lia)) as D.
  assert (R : (- Zpos b < Z.rem a (Zpos b) < Zpos b)%Z).
  { destruct (Z_le_gt_dec 0 a) as [L | L].
    - pose proof (Z.rem_bound_pos a (Zpos b) L ltac:(lia)). lia.
    - pose proof (Z.rem_bound_pos_neg a (Zpos b) ltac:(lia) ltac:(lia)). lia. }
  set (q := Z.quot a (Zpos b)) in *. set (r := Z.rem a (Zpos b)) in *.
  rewrite !Pos2Z.inj_mul. nia.
Qed.

(** The remainder has the sign of the number. *)
Lemma remainder1_sign (t : Q) :
  (0 <= t -> 0 <= remainder1 t) /\ (t <= 0 -> remainder1 t <= 0).
Proof.
  destruct t as [a b]. unfold remainder1, truncate. cbn [Qnum Qden].
  unfold Qle, Qminus, Qplus, Qopp, inject_Z. cbn [Qnum Qden].
  pose proof (Z.quot_rem a (Zpos b) ltac:(lia)) as D.
  set (q := Z.quot a (Zpos b)) in *. set (r := Z.rem a (Zpos b)) in *.
  split; intros H.
  - assert (L : (0 <= a)%Z) by lia.
    pose proof (Z.rem_bound_pos a (Zpos b) L ltac:(lia)) as R. fold r in R.
    rewrite !Pos2Z.inj_mul. nia.
  - assert (L : (a <= 0)%Z) by lia.
    pose proof (Z.rem_nonpos a (Zpos b) ltac:(lia) L) as R. fold r in R.
    rewrite !Pos2Z.inj_mul. nia.
Qed.

Section PointOnPathProperties.
Context {ext : Externals}.

(** X11: [vg.pointOnPath] asks a Path for its point at a parameter between
    0 and 1: the parameter wraps around.  For a [t] that is not negative
    the parameter is below 1 and differs from [t] by an integer; for a
    negative [t] it is 1 plus the remainder of [t], a sum that the
    numbers of the program round, so that it can reach 1 and differs from
    [t] by an integer up to a unit in the last place. *)
Theorem pointOnPath_wraps (p : path) (t : Q) :
  exists u : Q,
    vg.pointOnPath (VPath p) t
    = Ok (VPoint (Point (px (method_point p u)) (py (method_point p u)))) /\
    0 <= u <= 1 /\
    (0 <= t -> u < 1 /\ exists k : Z, t == u + inject_Z k) /\
    (t < 0 -> exists k : Z, Qabs (t - (u + inject_Z k)) <= last_place).
Proof.
  unfold vg.pointOnPath. cbn [falsy]. cbv zeta.
  pose proof (remainder1_range t) as R.
  pose proof (remainder1_sign t) as [Sp Sn].
  assert (Z0 : forall a b : Q, a == b -> Qabs (a - b) <= last_place).
  { intros a b E. assert (E0 : a - b == 0) by lra. rewrite E0. discriminate. }
  destruct (ltb (remainder1 t) 0) eqn:E; eexists; (split; [reflexivity |]).
  - apply ltb_lt in E.
    assert (Hk : t == 1 + remainder1 t + inject_Z (truncate t - 1)).
    { unfold remainder1. unfold Z.sub. rewrite inject_Z_plus.
      change (inject_Z (- (1))) with (- (1)).
      set (z := inject_Z (truncate t)). lra. }
    split; [lra |]. split.
    + intros H. specialize (Sp H). lra.
    + intros _. exists (truncate t - 1)%Z. apply Z0. exact Hk.
  - assert (0 <= remainder1 t).
    { apply Qnot_lt_le. intros L. apply ltb_lt in L. congruence. }
    assert (Hk : t == remainder1 t + inject_Z (truncate t)).
    { unfold remainder1. set (z := inject_Z (truncate t)). lra. }
    split; [lra |]. split.
    + intros _. split; [lra |]. exists (truncate t). exact Hk.
    + intros _. exists (truncate t). apply Z0. exact Hk.
Qed.

End PointOnPathProperties.

Lemma pointOnPath_wraps_witness :
  exists u : Q,
    vg.pointOnPath (ext := Sample.ext) (VPath Sample.square) (- (7 # 4))
    = Ok (VPoint
            (Point
               (px (method_point (Externals := Sample.ext) Sample.square u))
               (py (method_point (Externals := Sample.ext) Sample.square u))))
    /\
    0 <= u <= 1 /\
    exists k : Z, Qabs (- (7 # 4) - (u + inject_Z k)) <= last_place.
Proof.
  destruct (@pointOnPath_wraps Sample.ext Sample.square
              (- (7 # 4))) as (u & H & R & _ & N).
  exists u. split; [exact H |]. split; [exact R |]. apply N. reflexivity.
Defined.

(** ** Wiggling the points of a path *)

Section WigglePathProperties.
Context {lib : Collaborators}.
Hypothesis rand_range :
  forall g : rng, 0 <= fst (rand g 0 1) /\ fst (rand g 0 1) < 1.




End WigglePathProperties.


(** ** Mirroring *)

Section MirrorProperties.
Context {lib : Collaborators}.

Lemma mirrorPath_keeps (p : path) (fn : Q -> Q -> point) (out : value) :
  vg._mirrorPath (VPath p) fn = Ok out ->
  exists q : path,
    out = VPath q /\
    fill q = fill p /\ stroke q = stroke p /\
    strokeWidth q = strokeWidth p /\
    map ctype (commands q) = map ctype (commands p) /\
    forallb notQuad (commands p) = true.
Proof.
  cbn [vg._mirrorPath]. intros H. bind_in H. injection H as <-.
  exists a. split; [reflexivity |].
  pose (I := fun (done : list command) (st : path) =>
               fill st = fill p /\ stroke st = stroke p /\
               strokeWidth st = strokeWidth p /\
               map ctype (commands st) = map ctype done /\
               forallb notQuad done = true).
  refine (foldM_invariant _ I (commands p) _ [] _ _ E);
    [| unfold I; cbn; repeat split].
  clear. unfold I, notQuad.
  intros done cmd st st' (Hf & Hs & Hw & Hc & Hq) Hstep.
  rewrite map_app, forallb_app, Hq. cbn [map forallb andb].
  destruct (ctype cmd) eqn:Ht; cbn [bezier.eqb negb];
    try discriminate Hstep;
    repeat (bind_in Hstep); injection Hstep as <-;
    cbn [moveTo lineTo curveTo close push fill stroke strokeWidth
         commands];
    rewrite map_app, Hc; repeat split; assumption.
Qed.

(** X13: [vg.mirror] of a Path returns a Path with the attributes and the
    tags of the commands of the first, which has no [QUADTO] command,
    or with [keepOriginal] a Group of the Path itself and that one. *)
Theorem mirror_of_path (p : path) (angle : option Q) (origin : option point)
    (keepOriginal : bool) (out : value) :
  vg.mirror (VPath p) angle origin keepOriginal = Ok out ->
  exists q : path,
    out = (if keepOriginal then VGroup [VPath p; VPath q] else VPath q) /\
    fill q = fill p /\ stroke q = stroke p /\
    strokeWidth q = strokeWidth p /\
    map ctype (commands q) = map ctype (commands p) /\
    forallb notQuad (commands p) = true.
Proof.
  unfold vg.mirror. cbn [falsy vg._mirror]. intros H. bind_in H.
  destruct (mirrorPath_keeps _ _ E) as (q & -> & Hq).
  exists q. split; [| exact Hq].
  destruct keepOriginal; cbn [isPointArray bind] in H;
    injection H as <-; reflexivity.
Qed.

Lemma mirrorPoints_length (fn : Q -> Q -> point) (pts : list point) :
  forall out : list value,
  vg._mirrorPoints (map VPoint pts) fn = Ok out ->
  exists qs : list point,
    List.length qs = List.length pts /\ out = map VPoint qs.
Proof.
  induction pts as [| p pts IH]; intros out H.
  - injection H as <-. exists []. split; reflexivity.
  - cbn [map] in H. unfold vg._mirrorPoints in *. cbn [mapM] in H.
    bind_in H. bind_in H. injection H as <-.
    destruct (IH _ E0) as (qs & Hl & ->).
    cbn [pointOf coordinates object bind number fst snd] in E.
    injection E as <-.
    eexists (_ :: qs). split; [cbn [List.length]; rewrite Hl |];
      reflexivity.
Qed.

(** X14: [vg.mirror] of an array of points returns as many points, or with
    [keepOriginal] the points of the array followed by as many. *)
Theorem mirror_of_points (pts : list point) (angle : option Q)
    (origin : option point) (keepOriginal : bool) (out : value) :
  vg.mirror (VArray (map VPoint pts)) angle origin keepOriginal = Ok out ->
  exists qs : list point,
    List.length qs = List.length pts /\
    out = VArray (map VPoint (if keepOriginal then pts ++ qs else qs)).
Proof.
  unfold vg.mirror. cbn [falsy]. intros H. bind_in H.
  destruct pts as [| p pts]; [discriminate E |].
  cbn [map vg._mirror isPointArray has_xy object bind] in E, H.
  bind_in E. injection E as <-.
  change (VPoint p :: map VPoint pts) with (map VPoint (p :: pts)) in *.
  destruct (mirrorPoints_length _ _ E0) as (qs & Hl & ->).
  exists qs. split; [exact Hl |].
  destruct keepOriginal; injection H as <-; [| reflexivity].
  rewrite map_app. reflexivity.
Qed.

End MirrorProperties.

Lemma mirror_of_path_witness :
  match vg.mirror (lib := Sample.lib) (VPath Sample.square) (Some 45) None
                  true with
  | Ok out =>
      exists q : path,
        out = VGroup [VPath Sample.square; VPath q] /\
        fill q = fill Sample.square /\ stroke q = stroke Sample.square /\
        strokeWidth q = strokeWidth Sample.square /\
        map ctype (commands q) = map ctype (commands Sample.square) /\
        forallb notQuad (commands Sample.square) = true
  | _ => False
  end.
Proof.
  pose proof (@mirror_of_path Sample.lib Sample.square (Some 45) None true)
    as H.
  destruct (vg.mirror (lib := Sample.lib) (VPath Sample.square) (Some 45)
                      None true) as [out | e |] eqn:E.
  - apply H. reflexivity.
  - vm_compute in E. discriminate E.
  - vm_compute in E. discriminate E.
Defined.

Lemma mirror_of_points_witness :
  match vg.mirror (lib := Sample.lib)
                  (VArray (map VPoint [Point 1 2; Point 3 4])) None None
                  true with
  | Ok out =>
      exists qs : list point,
        List.length qs = 2%nat /\
        out = VArray (map VPoint ([Point 1 2; Point 3 4] ++ qs))
  | _ => False
  end.
Proof.
  pose proof (@mirror_of_points Sample.lib [Point 1 2; Point 3 4] None None
                                true) as H.
  destruct (vg.mirror (lib := Sample.lib)
                      (VArray (map VPoint [Point 1 2; Point 3 4])) None None
                      true) as [out | e |] eqn:E.
  - apply H. reflexivity.
  - vm_compute in E. discriminate E.
  - vm_compute in E. discriminate E.
Defined.

(** ** The polygons of a compound *)

Section CompoundProperties.
Context {lib : Collaborators} {ext : Externals}.

Lemma assemble_ring (s : list clip_point) :
  forall (i : nat) (p : path),
  snd (fold_left
         (fun (st : nat * path) pt =>
            (S (fst st),
             match fst st with
             | O => moveTo (snd st) (X pt) (Y pt)
             | S _ => lineTo (snd st) (X pt) (Y pt)
             end))
         s (i, p))
  = Path (commands p ++ polyline i (map clip_to_point s))
         (fill p) (stroke p) (strokeWidth p).
Proof.
  induction s as [| pt s IH]; intros i p.
  - cbn [fold_left snd map polyline]. rewrite app_nil_r.
    destruct p; reflexivity.
  - cbn [fold_left fst snd map polyline]. rewrite IH.
    destruct i;
      cbn [moveTo lineTo push commands fill stroke strokeWidth
           clip_to_point px py];
      rewrite <- app_assoc; reflexivity.
Qed.

Lemma assemble_commands (rings : list (list clip_point)) :
  forall p : path,
  fold_left
    (fun acc s =>
       p <- acc ;;
       let p :=
         snd (fold_left
                (fun (st : nat * path) pt =>
                   (S (fst st),
                    match fst st with
                    | O => moveTo (snd st) (X pt) (Y pt)
                    | S _ => lineTo (snd st) (X pt) (Y pt)
                    end))
                s (O, p)) in
       match s with
       | [] => Throw TypeError
       | first :: _ =>
           let final := List.last s first in
           if negb (Qeq_bool (X first) (X final))
              || negb (Qeq_bool (Y first) (Y final))
           then Ok (close p)
           else Ok p
       end)
    rings (Ok p)
  = if existsb is_empty rings then Throw TypeError
    else Ok (Path (commands p ++ flat_map ring_commands rings)
                  (fill p) (stroke p) (strokeWidth p)).
Proof.
  induction rings as [| s rings IH]; intros p.
  - cbn [fold_left existsb flat_map]. rewrite app_nil_r.
    destruct p; reflexivity.
  - cbn [fold_left existsb flat_map bind]. cbv zeta.
    destruct s as [| first s].
    + cbn [is_empty orb]. apply foldM_stops. discriminate.
    + cbn [is_empty orb]. rewrite assemble_ring.
      unfold ring_commands at 1.
      destruct (negb _ || negb _);
        [unfold close, push;
         cbn [commands fill stroke strokeWidth] |];
        rewrite IH; cbn [commands fill stroke strokeWidth];
        destruct (existsb is_empty rings); try reflexivity;
        rewrite <- !app_assoc; try rewrite app_nil_r; reflexivity.
Qed.

Lemma toPoints_commands (cmd : command) (cmds : list command)
    (f s : option color) (w : option Q) :
  vg.toPoints (VPath (Path (cmd :: cmds) f s w))
  = match cx cmd with
    | Some x =>
        y <- number (cy cmd) ;;
        points <- vg.toPoints (VPath (Path cmds f s w)) ;;
        Ok (Point x y :: points)
    | None => vg.toPoints (VPath (Path cmds f s w))
    end.
Proof. reflexivity. Qed.

Lemma toPoints_app (a b : list command) (f s : option color)
    (w : option Q) :
  vg.toPoints (VPath (Path (a ++ b) f s w))
  = (pa <- vg.toPoints (VPath (Path a f s w)) ;;
     pb <- vg.toPoints (VPath (Path b f s w)) ;;
     Ok (pa ++ pb)).
Proof.
  induction a as [| cmd a IH].
  - cbn [app]. change (vg.toPoints (VPath (Path [] f s w)))
      with (Ok (@nil point)). cbn [bind].
    destruct (vg.toPoints (VPath (Path b f s w))); reflexivity.
  - cbn [app]. rewrite !toPoints_commands, IH.
    destruct (cx cmd); [| reflexivity].
    destruct (number (cy cmd)); [| reflexivity | reflexivity].
    cbn [bind].
    destruct (vg.toPoints (VPath (Path a f s w))); [| reflexivity
                                                    | reflexivity].
    cbn [bind].
    destruct (vg.toPoints (VPath (Path b f s w))); reflexivity.
Qed.

Lemma toPoints_ring (s : list clip_point) (f c : option color)
    (w : option Q) :
  vg.toPoints (VPath (Path (ring_commands s) f c w))
  = Ok (map clip_to_point s).
Proof.
  unfold ring_commands.
  apply (toPoints_polyline (map clip_to_point s) 0 _ (Path [] f c w)).
  intros cmd H. destruct s as [| first s]; [destruct H |].
  destruct (negb _ || negb _); [| destruct H].
  destruct H as [<- | []]. reflexivity.
Qed.

Lemma toPoints_rings (rings : list (list clip_point)) (f c : option color)
    (w : option Q) :
  vg.toPoints (VPath (Path (flat_map ring_commands rings) f c w))
  = Ok (map clip_to_point (List.concat rings)).
Proof.
  induction rings as [| s rings IH]; [reflexivity |].
  cbn [flat_map List.concat]. rewrite toPoints_app, toPoints_ring, IH.
  cbn [bind]. rewrite map_app. reflexivity.
Qed.

Lemma well_started_rings (rings : list (list clip_point)) :
  existsb is_empty rings = false ->
  forall opening : bool,
  well_started opening (flat_map ring_commands rings) = true.
Proof.
  induction rings as [| s rings IH]; intros H opening; [reflexivity |].
  cbn [existsb] in H. apply orb_false_elim in H as [Hs Hr].
  destruct s as [| first s]; [discriminate Hs |].
  cbn [flat_map]. unfold ring_commands.
  cbn [map polyline app well_started MoveTo ctype bezier.eqb].
  assert (Hl : forall pts i tail,
             well_started false (polyline (S i) pts ++ tail)
             = well_started false tail).
  { induction pts as [| q pts IHp]; intros i tail; [reflexivity |].
    cbn [polyline app well_started LineTo ctype bezier.eqb andb].
    apply IHp. }
  replace (if opening then true else true) with true
    by (destruct opening; reflexivity).
  cbn [andb]. rewrite <- app_assoc, Hl.
  destruct (negb _ || negb _); cbn [app well_started Close ctype
                                    bezier.eqb andb]; apply (IH Hr).
Qed.

Lemma compoundToPoints_rings (rings : list (list clip_point)) :
  vg._compoundToPoints [flat_map ring_commands rings]
  = Ok [List.concat rings].
Proof.
  unfold vg._compoundToPoints. cbn [mapM].
  match goal with
  | |- bind (?f _) _ = _ =>
      assert (H : forall pts i tail,
                 f (polyline i (map clip_to_point pts) ++ tail)
                 = (r <- f tail ;; Ok (pts ++ r)))
  end.
  { induction pts as [| [x y] pts IHp]; intros i tail.
    - cbn [map polyline app].
      match goal with |- ?m = _ => destruct m; reflexivity end.
    - cbn [map polyline app clip_to_point X Y px py].
      destruct i; cbn [MoveTo LineTo ctype bezier.eqb negb cx cy number bind];
        rewrite IHp;
        match goal with |- bind (bind ?m _) _ = _ => destruct m end;
        reflexivity. }
  match goal with
  | |- bind (?f _) _ = _ =>
      assert (Hr : f (flat_map ring_commands rings)
                   = Ok (List.concat rings))
  end.
  { induction rings as [| s rings IH]; [reflexivity |].
    cbn [flat_map List.concat]. unfold ring_commands at 1.
    rewrite <- app_assoc, H.
    destruct s as [| first s]; [cbn [app]; rewrite IH; reflexivity |].
    destruct (negb _ || negb _);
      [cbn [app Close ctype bezier.eqb negb] |];
      cbn [app]; rewrite IH; reflexivity. }
  rewrite Hr. reflexivity.
Qed.

(** X15: The last loop of [vg.compound] makes one Path of the polygons that
    the clipping engine hands back.  When one of them has no point the
    call throws a TypeError.  When none is empty, the Path starts every
    contour with a [MOVETO], its points are those of the polygons one
    after the other, [vg._compoundToPoints] reads them back from its
    commands, and its fill, stroke and stroke width are those that
    [new Path()] gives. *)
Theorem assemble_polygons (rings : list (list clip_point)) :
  if existsb is_empty rings then vg.assemble rings = Throw TypeError
  else
    exists p : path,
      vg.assemble rings = Ok p /\
      well_started true (commands p) = true /\
      vg.toPoints (VPath p) = Ok (map clip_to_point (List.concat rings)) /\
      vg._compoundToPoints [commands p] = Ok [List.concat rings] /\
      fill p = Path_fill /\ stroke p = Path_stroke /\
      strokeWidth p = Path_strokeWidth.
Proof.
  unfold vg.assemble. rewrite assemble_commands.
  destruct (existsb is_empty rings) eqn:E; [reflexivity |].
  eexists. split; [reflexivity |].
  cbn [vg.new_Path commands fill stroke strokeWidth app].
  split; [apply well_started_rings, E |].
  split; [apply toPoints_rings |].
  split; [apply compoundToPoints_rings |].
  repeat split.
Qed.

Lemma ring_tags (rings : list (list clip_point)) :
  Forall (fun cmd => ctype cmd = bezier.MOVETO \/
                     ctype cmd = bezier.LINETO \/
                     ctype cmd = bezier.CLOSE)
         (flat_map ring_commands rings).
Proof.
  induction rings as [| s rings IH]; [constructor |].
  cbn [flat_map]. apply Forall_app. split; [| exact IH].
  unfold ring_commands. apply Forall_app. split.
  - generalize O. induction (map clip_to_point s) as [| q l IHl];
      intros i; [constructor |].
    cbn [polyline]. constructor; [| apply IHl].
    destruct i; cbn; auto.
  - destruct s as [| first s]; [constructor |].
    destruct (negb _ || negb _); [| constructor].
    constructor; [| constructor]. right. right. reflexivity.
Qed.

(** X16: Whatever the shapes and the method, what [vg.compound] returns is a
    Path made of [MOVETO], [LINETO] and [CLOSE] commands only, each
    contour starting with a [MOVETO]; its fill, stroke and stroke width
    are those that [new Path()] gives, whatever those of the two shapes
    are. *)
Theorem compound_returns_new_path (shape1 shape2 : value)
    (method : string) (out : value) :
  vg.compound shape1 shape2 method = Ok out ->
  exists p : path,
    out = VPath p /\
    fill p = Path_fill /\ stroke p = Path_stroke /\
    strokeWidth p = Path_strokeWidth /\
    well_started true (commands p) = true /\
    Forall (fun cmd => ctype cmd = bezier.MOVETO \/
                       ctype cmd = bezier.LINETO \/
                       ctype cmd = bezier.CLOSE)
           (commands p).
Proof.
  unfold vg.compound. intros H.
  bind_in H. bind_in H. bind_in H. bind_in H. bind_in H.
  injection H as <-. exists a3. split; [reflexivity |].
  unfold vg.assemble in E3. rewrite assemble_commands in E3.
  destruct (existsb is_empty _) eqn:Hne; [discriminate E3 |].
  injection E3 as <-.
  cbn [vg.new_Path commands fill stroke strokeWidth app].
  repeat split; [apply well_started_rings, Hne | apply ring_tags].
Qed.

End CompoundProperties.

Lemma compound_returns_new_path_witness :
  let stroked := Path (commands Sample.square) None (Some (Color 1 0 0 1))
                      (Some 3) in
  match vg.compound (lib := Sample.lib) (ext := Sample.ext)
                    (VPath stroked) (VPath Sample.square) "union" with
  | Ok out =>
      exists p : path,
        out = VPath p /\
        fill p = Some (Color 0 0 0 1) /\ stroke p = None /\
        strokeWidth p = Some 1 /\
        well_started true (commands p) = true /\
        Forall (fun cmd => ctype cmd = bezier.MOVETO \/
                           ctype cmd = bezier.LINETO \/
                           ctype cmd = bezier.CLOSE)
               (commands p)
  | _ => False
  end.
Proof.
  intros stroked.
  pose proof (@compound_returns_new_path Sample.lib Sample.ext
                (VPath stroked) (VPath Sample.square) "union") as H.
  destruct (vg.compound (lib := Sample.lib) (ext := Sample.ext)
                        (VPath stroked) (VPath Sample.square) "union")
    as [out | e |] eqn:E.
  - apply H. reflexivity.
  - vm_compute in E. discriminate E.
  - vm_compute in E. discriminate E.
Defined.

(** ** Aligning *)

Section AlignProperties.
Context {lib : Collaborators}.


End AlignProperties.

(** ** Deleting points, again and again *)

Lemma filter_twice {A : Type} (f g : A -> bool) (l : list A) :
  filter f (filter g l) = filter (fun a => g a && f a) l.
Proof.
  induction l as [| a l IH]; [reflexivity |].
  cbn [filter]. destruct (g a); cbn [filter andb];
    [destruct (f a) |]; rewrite IH; reflexivity.
Qed.

Section DeleteAgainProperties.
Context {lib : Collaborators}.

(** X9: Deleting the points of an array in one rect and then in another
    gives what the other order gives; deleting twice in the same rect
    gives what deleting once gives; and after a deletion the inverted
    deletion leaves no point. *)
Theorem delete_points_compose (R1 R2 : rect) (i j : bool)
    (P : list point) :
  let del (R : rect) (invert : bool) (shape : value) :=
    vg.delete shape (VRect R) (Some "points"%string) invert in
  (a <- del R1 i (VArray (map VPoint P)) ;; del R2 j a)
  = (b <- del R2 j (VArray (map VPoint P)) ;; del R1 i b) /\
  (a <- del R1 i (VArray (map VPoint P)) ;; del R1 i a)
  = del R1 i (VArray (map VPoint P)) /\
  (a <- del R1 i (VArray (map VPoint P)) ;; del R1 (negb i) a)
  = Ok (VArray []).
Proof.
  cbv beta zeta. rewrite !delete_points_filters. cbn [bind].
  rewrite !delete_points_filters. unfold kept.
  rewrite !filter_twice. repeat split.
  - do 3 f_equal. apply filter_ext. intros a. apply andb_comm.
  - do 3 f_equal. apply filter_ext. intros a.
    destruct (if i then _ else _); reflexivity.
  - do 2 f_equal.
    replace (@nil value) with (map VPoint []) by reflexivity. f_equal.
    induction P as [| a P IH]; [reflexivity |].
    cbn [filter]. destruct i; cbn [negb];
      destruct (inside R1 a); cbn [negb andb]; exact IH.
Qed.

End DeleteAgainProperties.

(** ** Copying *)

Section CopyProperties.
Context {lib : Collaborators} {ext : Externals}.



End CopyProperties.

(** ** Fitting to a shape *)


Section FitToProperties.
Context {lib : Collaborators}.



End FitToProperties.


(* ================================================================== *)
(** * The sketch of the waves *)

Lemma int32_small (z : Z) :
  (- 2 ^ 31 <= z < 2 ^ 31)%Z -> perlin_wave.int32 z = z.
Proof.
  intros H. unfold perlin_wave.int32.
  rewrite Z.mod_small; lia.
Qed.

Lemma advance_triangle (n : Z) :
  (0 <= n)%Z ->
  perlin_wave.advance (perlin_wave.triangle n) = perlin_wave.triangle (n + 1).
Proof.
  intros Hn. unfold perlin_wave.triangle, perlin_wave.advance.
  assert (Hr : (0 <= n mod 1000 < 1000)%Z) by (apply Z.mod_pos_bound; lia).
  assert (Hs : ((n + 1) mod 1000
                = if (n mod 1000 =? 999)%Z then 0 else n mod 1000 + 1)%Z).
  { destruct (Z.eqb_spec (n mod 1000) 999) as [E | E];
      symmetry;
      apply Z.mod_unique
        with (q := ((n / 1000)
                    + (if Z.eq_dec (n mod 1000) 999 then 1 else 0))%Z);
      try lia;
      pose proof (Z.div_mod n 1000 ltac:(lia)) as D;
      destruct (Z.eq_dec (n mod 1000) 999); lia. }
  rewrite Hs. clear Hs. set (r := (n mod 1000)%Z) in *. clearbody r.
  unfold perlin_wave.offset.
  destruct (Z.ltb_spec r 500) as [L | L];
    cbn [perlin_wave.ofs perlin_wave.ofs_v];
    rewrite !int32_small by lia;
    destruct (Z.eqb_spec r 999) as [E | E];
    repeat match goal with
           | |- context [Z.eqb ?a ?b] => destruct (Z.eqb_spec a b)
           | |- context [Z.ltb ?a ?b] => destruct (Z.ltb_spec a b)
           end;
    cbn [orb]; rewrite ?int32_small by lia; try lia;
    f_equal; lia.
Qed.

Lemma after_draws_triangle (n : nat) :
  perlin_wave.after_draws n = perlin_wave.triangle (Z.of_nat n).
Proof.
  induction n as [| n IH]; [reflexivity |].
  change (perlin_wave.after_draws (S n))
    with (perlin_wave.advance (perlin_wave.after_draws n)).
  rewrite IH, advance_triangle by lia. f_equal. lia.
Qed.

Lemma triangle_range (k : Z) :
  (0 <= perlin_wave.ofs (perlin_wave.triangle k) <= 500)%Z /\
  (perlin_wave.ofs_v (perlin_wave.triangle k) = 1 \/
   perlin_wave.ofs_v (perlin_wave.triangle k) = -1)%Z.
Proof.
  unfold perlin_wave.triangle.
  assert (Hr : (0 <= k mod 1000 < 1000)%Z) by (apply Z.mod_pos_bound; lia).
  destruct (Z.ltb_spec (k mod 1000) 500);
    cbn [perlin_wave.ofs perlin_wave.ofs_v]; lia.
Qed.

Lemma lines_of_draw (n : nat) :
  snd (perlin_wave.draw (perlin_wave.after_draws n))
  = [212 + perlin_wave.ofs (perlin_wave.after_draws (S n));
     215 + perlin_wave.ofs (perlin_wave.after_draws (S n));
     210 + perlin_wave.ofs (perlin_wave.after_draws (S n))]%Z.
Proof.
  unfold perlin_wave.draw, perlin_wave.lines. cbn [snd].
  change (perlin_wave.advance (perlin_wave.after_draws n))
    with (perlin_wave.after_draws (S n)).
  rewrite after_draws_triangle.
  destruct (triangle_range (Z.of_nat (S n))) as [[Hl Hu] _].
  rewrite !int32_small by lia. reflexivity.
Qed.

(** X23: The counters of the waves go up and down between 0 and 500 for
    ever: after [n] calls of [draw], [ofs] is the triangle wave of period
    1000 and [ofs_v] its slope, and the three lines painted start at 212,
    215 and 210 more than [ofs], none of the sums having wrapped around. *)
Theorem waves_go_up_and_down (n : nat) :
  perlin_wave.after_draws n = perlin_wave.triangle (Z.of_nat n) /\
  (0 <= perlin_wave.ofs (perlin_wave.after_draws n) <= 500)%Z /\
  (perlin_wave.ofs_v (perlin_wave.after_draws n) = 1 \/
   perlin_wave.ofs_v (perlin_wave.after_draws n) = -1)%Z /\
  snd (perlin_wave.draw (perlin_wave.after_draws n))
  = [212 + perlin_wave.ofs (perlin_wave.after_draws (S n));
     215 + perlin_wave.ofs (perlin_wave.after_draws (S n));
     210 + perlin_wave.ofs (perlin_wave.after_draws (S n))]%Z.
Proof.
  split; [apply after_draws_triangle |].
  rewrite after_draws_triangle.
  split; [apply triangle_range |]. split; [apply triangle_range |].
  rewrite <- after_draws_triangle. apply lines_of_draw.
Qed.

Section WaveLines.
Variable noise : Q -> Q -> Q.
Hypothesis noise_range : forall x y : Q, 0 <= noise x y <= 1.

Lemma drawLine_in_band (frameCount y0 : Z) :
  (210 <= y0 <= 715)%Z ->
  List.length (perlin_wave.drawLine noise frameCount y0) = 27%nat /\
  Forall (fun v => -50 <= fst v <= 2190 /\ 210 <= snd v <= 1215)
         (perlin_wave.drawLine noise frameCount y0).
Proof.
  intros Hy. unfold perlin_wave.drawLine.
  change (Z.to_nat (perlin_wave.int32
                      (Z.quot perlin_wave.width perlin_wave.step + 3)))
    with 23%nat.
  split; [rewrite !length_app, length_map, length_seq; reflexivity |].
  assert (Hy0 : 210 <= inject_Z y0 <= 715).
  { split; [change 210 with (inject_Z 210) | change 715 with (inject_Z 715)];
      rewrite <- Zle_Qle; lia. }
  apply Forall_app. split; [| apply Forall_app; split].
  - constructor; [| constructor]. cbn [fst snd]. lra.
  - apply Forall_forall. intros v Hv. apply in_map_iff in Hv.
    destruct Hv as (i & <- & Hi). apply in_seq in Hi. cbn [fst snd].
    unfold perlin_wave.step.
    rewrite !int32_small by (rewrite ?int32_small; lia).
    change (inject_Z perlin_wave.offset) with 500.
    destruct (noise_range
                (inject_Z (Z.of_nat i) * perlin_wave.noiseScale
                 * (inject_Z y0 * 0.06))
                (inject_Z frameCount * perlin_wave.noiseScale)) as [N0 N1].
    split; [| lra].
    split; [change (-50) with (inject_Z (-50))
           | change 2190 with (inject_Z 2190)];
      rewrite <- Zle_Qle; lia.
  - repeat constructor; cbn; try discriminate; try lra.
Qed.

(** X24: Whatever the noise gives between 0 and 1 and however long the
    sketch runs, each of the three lines of a frame has 27 vertices, and
    every vertex lies between -50 and 2190 across and between 210 and
    1215 down (before the canvas is moved up by 200). *)
Theorem waves_stay_in_band (n : nat) (frameCount : Z) :
  Forall (fun line =>
            List.length line = 27%nat /\
            Forall (fun v => -50 <= fst v <= 2190 /\ 210 <= snd v <= 1215)
                   line)
         (perlin_wave.frame noise frameCount (perlin_wave.after_draws n)).
Proof.
  unfold perlin_wave.frame. rewrite lines_of_draw.
  rewrite after_draws_triangle.
  destruct (triangle_range (Z.of_nat (S n))) as [[Hl Hu] _].
  cbn [map].
  repeat (apply Forall_cons; [apply drawLine_in_band; lia |]).
  apply Forall_nil.
Qed.

End WaveLines.

Lemma waves_stay_in_band_witness :
  Forall (fun line =>
            List.length line = 27%nat /\
            Forall (fun v => -50 <= fst v <= 2190 /\ 210 <= snd v <= 1215)
                   line)
         (perlin_wave.frame (fun _ _ => 1 # 2) 1
                            (perlin_wave.after_draws 499)).
Proof.
  apply (@waves_stay_in_band (fun _ _ => 1 # 2)).
  intros x y. lra.
Defined.

(* ================================================================== *)
(** * The sketch of the noise landscape *)

Lemma ratio_range (a b : Q) : 0 <= a -> a <= b -> 0 < b -> 0 <= a / b <= 1.
Proof.
  intros Ha Hab Hb. split.
  - apply Qle_shift_div_l; [exact Hb | lra].
  - apply Qle_shift_div_r; [exact Hb | lra].
Qed.

Lemma sample_noise_range (x y : Q) : 0 <= M_1_4_01.sample_noise x y.
Proof.
  unfold M_1_4_01.sample_noise. apply Q.min_glb; [lra |].
  pose proof (Qabs_nonneg (x - y)). lra.
Qed.

Section SketchProperties.
Import M_1_4_01.
Context {p5 : P5}.

Lemma map_range_returns (n start1 stop1 start2 stop2 : Q) :
  ~ stop1 - start1 == 0 ->
  map_range n start1 stop1 start2 stop2
  = Ok ((n - start1) / (stop1 - start1) * (stop2 - start2) + start2).
Proof.
  intros H. unfold map_range.
  destruct (Qeq_bool (stop1 - start1) 0) eqn:E; [| reflexivity].
  apply Qeq_bool_iff in E. contradiction.
Qed.

Lemma keyReleased_clamps (s : sketch) (e : environment) (n : noise_state) :
  0 <= falloff (fst (fst (keyReleased s e n))) <= 1 /\
  0 <= octaves (fst (fst (keyReleased s e n))).
Proof.
  unfold keyReleased. cbn [fst falloff octaves]. unfold gtb, ltb.
  repeat match goal with
         | |- context [Qle_bool ?a ?b] =>
             let E := fresh "E" in
             destruct (Qle_bool a b) eqn:E;
             [apply Qle_bool_iff in E | apply Qle_bool_false in E]
         end; cbn [negb] in *; repeat split; lra.
Qed.


(** What the first lines of [draw] leave as it was, and what they do to
    the rotation. *)
Lemma turn_keeps (s s' : sketch) (e : environment) :
  turn s e = Ok s' ->
  tileCount s' = tileCount s /\ threshold s' = threshold s /\
  falloff s' = falloff s /\ octaves s' = octaves s /\
  clickRotationX s' = clickRotationX s /\
  clickRotationZ s' = clickRotationZ s /\
  rotationX s' = rotationX s + (targetRotationX s' - rotationX s) * 0.25 /\
  (targetRotationX s' = targetRotationX s \/
   exists v, targetRotationX s' = Qmin (Qmax v (- HALF_PI)) HALF_PI).
Proof.
  unfold turn. intros H. bind_ok H.
  assert (Ha : tileCount a = tileCount s /\ threshold a = threshold s /\
               falloff a = falloff s /\ octaves a = octaves s /\
               clickRotationX a = clickRotationX s /\
               clickRotationZ a = clickRotationZ s /\
               rotationX a = rotationX s /\
               (targetRotationX a = targetRotationX s \/
                exists v,
                  targetRotationX a = Qmin (Qmax v (- HALF_PI)) HALF_PI)).
  { destruct (mouseIsPressed e && _) in E.
    - destruct (Qeq_bool (width e) 0 || Qeq_bool (height e) 0);
        [discriminate E |].
      bind_ok E. bind_ok E. injection E as <-.
      cbn [tileCount threshold falloff octaves clickRotationX clickRotationZ
           rotationX targetRotationX].
      repeat split. right. eexists. reflexivity.
    - injection E as <-. repeat split. left. reflexivity. }
  destruct Ha as (H1 & H2 & H3 & H4 & H5 & H6 & H7 & Ht).
  destruct (mouseIsPressed e && _) in H; injection H as <-;
    cbn [tileCount threshold falloff octaves clickRotationX clickRotationZ
         rotationX targetRotationX];
    rewrite H7; repeat split; assumption.
Qed.

Lemma draw_turns (s s' : sketch) (e : environment) (n : noise_state)
    (m : list mesh_point) :
  draw s e n = Ok (s', m) -> turn s e = Ok s'.
Proof.
  unfold draw. intros H. bind_ok H. bind_ok H. injection H as <- _.
  reflexivity.
Qed.

(** What never changes after [setup], and that the two rotations
    recorded at a click are set together. *)
Lemma reachable_constants (n0 : noise_state) (st : sketch * noise_state) :
  reachable n0 st ->
  tileCount (fst st) = 50%nat /\ threshold (fst st) = 0.30 /\
  (clickRotationX (fst st) = None <-> clickRotationZ (fst st) = None).
Proof.
  induction 1 as [| ev e [s n] st' _ IH Hw Hh Hcall].
  - cbn. repeat split; auto.
  - cbn [fst] in IH. destruct IH as (Ht & Hth & Hc).
    destruct ev; cbn [call fst snd] in Hcall.
    + bind_ok Hcall. injection Hcall as <-. cbn [fst].
      destruct a as [s' m]. apply draw_turns, turn_keeps in E.
      cbn [fst].
      destruct E as (-> & -> & _ & _ & -> & -> & _). auto.
    + injection Hcall as <-. cbn. repeat split; auto; discriminate.
    + injection Hcall as <-. cbn. auto.
Qed.

(** In every state the sketch can be brought to, [rotationX] and its
    target lie between [-HALF_PI] and [HALF_PI], [falloff] lies between 0
    and 1 and [octaves] is not below 0. *)
Lemma reachable_in_range (n0 : noise_state) (st : sketch * noise_state) :
  0 <= PI -> reachable n0 st ->
  - HALF_PI <= rotationX (fst st) <= HALF_PI /\
  - HALF_PI <= targetRotationX (fst st) <= HALF_PI /\
  0 <= falloff (fst st) <= 1 /\ 0 <= octaves (fst st).
Proof.
  intros Hpi.
  assert (H2 : HALF_PI == PI * (1 # 2)) by (unfold HALF_PI; field).
  assert (H3 : PI / 3 == PI * (1 # 3)) by field.
  assert (Hh : - HALF_PI <= HALF_PI) by lra.
  induction 1 as [| ev e [s n] st' _ IH Hw Hh' Hcall].
  - cbn [fst setup rotationX targetRotationX falloff octaves].
    repeat split; lra.
  - cbn [fst] in IH. destruct IH as (Hr & Ht & Hf & Ho).
    destruct ev; cbn [call fst snd] in Hcall.
    + bind_ok Hcall. injection Hcall as <-. cbn [fst].
      destruct a as [s' m]. apply draw_turns, turn_keeps in E.
      cbn [fst].
      destruct E as (_ & _ & -> & -> & _ & _ & -> & Hs).
      assert (Ht' : - HALF_PI <= targetRotationX s' <= HALF_PI).
      { destruct Hs as [-> | [v ->]]; [exact Ht |]. split.
        - apply Q.min_glb; [apply Q.le_max_r | exact Hh].
        - apply Q.le_min_r. }
      repeat split; lra.
    + injection Hcall as <-. cbn. repeat split; lra.
    + injection Hcall as <-.
      destruct (keyReleased_clamps s e n) as (Kf & Ko).
      cbn [fst snd]. split; [exact Hr |]. split; [exact Ht |].
      split; [exact Kf | exact Ko].
Qed.

Section Mesh.
Variables (s : sketch) (e : environment) (n : noise_state).
Hypothesis noise_range : forall n o f x y, 0 <= noise n o f x y.
Hypothesis tiles : tileCount s = 50%nat.
Hypothesis level : threshold s = 0.30.

Lemma mesh_at_returns (meshX meshY : nat) (noiseYMax : Q) :
  0 <= noiseYMax ->
  exists (m : mesh_point) (noiseYMax' : Q),
    mesh_at s e n meshX meshY noiseYMax = Ok (m, noiseYMax') /\
    0 <= amount m <= 1 /\ 0 <= noiseYMax'.
Proof.
  intros Hmax. unfold mesh_at. rewrite tiles, level.
  rewrite !map_range_returns by (vm_compute; discriminate).
  cbn [bind].
  set (z1 := noise n (octaves s) (falloff s) _ _).
  assert (Hz : 0 <= z1) by apply noise_range.
  destruct (Qle_bool z1 0.30) eqn:Hlow.
  - apply Qle_bool_iff in Hlow.
    rewrite map_range_returns by (vm_compute; discriminate).
    cbn [bind fst snd]. eexists. eexists. split; [reflexivity |].
    cbn [amount].
    assert (Hr : 0 <= (z1 - 0) / (0.30 - 0) <= 1)
      by (apply ratio_range; lra).
    split; [| apply Q.max_le_iff; left; exact Hmax].
    set (r := (z1 - 0) / (0.30 - 0)) in *. lra.
  - apply Qle_bool_false in Hlow.
    assert (Hm : z1 <= Qmax noiseYMax z1) by apply Q.le_max_r.
    rewrite map_range_returns by lra.
    cbn [bind fst snd]. eexists. eexists. split; [reflexivity |].
    cbn [amount].
    assert (Hr : 0 <= (z1 - 0.30) / (Qmax noiseYMax z1 - 0.30) <= 1)
      by (apply ratio_range; lra).
    split; [| lra].
    set (r := (z1 - 0.30) / (Qmax noiseYMax z1 - 0.30)) in *. lra.
Qed.

(** What the loops of [draw] have made so far. *)
Let made (k : nat) (acc : result (list mesh_point * Q)) : Prop :=
  exists l noiseYMax,
    acc = Ok (l, noiseYMax) /\ List.length l = k /\
    Forall (fun m => 0 <= amount m <= 1) l /\ 0 <= noiseYMax.

Lemma mesh_row (meshY : nat) (range : list nat) :
  forall k acc, made k acc ->
  made (k + List.length range)
       (fold_left
          (fun acc meshX =>
             st <- acc ;;
             m <- mesh_at s e n meshX meshY (snd st) ;;
             Ok (fst st ++ [fst m], snd m))
          range acc).
Proof.
  induction range as [| meshX range IH]; intros k acc H.
  - cbn [fold_left List.length]. rewrite Nat.add_0_r. exact H.
  - cbn [fold_left List.length].
    replace (k + S (List.length range))%nat
      with (S k + List.length range)%nat by lia.
    apply IH. destruct H as (l & y & -> & Hl & Hf & Hy).
    destruct (mesh_at_returns meshX meshY Hy) as (m & y' & Hm & Ha & Hy').
    cbn [bind fst snd]. rewrite Hm. cbn [bind fst snd].
    exists (l ++ [m]), y'. split; [reflexivity |].
    split; [rewrite length_app; cbn [List.length]; lia |].
    split; [| exact Hy'].
    apply Forall_app. split; [exact Hf | constructor; [exact Ha | constructor]].
Qed.

Lemma mesh_rows (range rows : list nat) :
  forall k acc, made k acc ->
  made (k + List.length rows * List.length range)
       (fold_left
          (fun acc meshY =>
             fold_left
               (fun acc meshX =>
                  st <- acc ;;
                  m <- mesh_at s e n meshX meshY (snd st) ;;
                  Ok (fst st ++ [fst m], snd m))
               range acc)
          rows acc).
Proof.
  induction rows as [| meshY rows IH]; intros k acc H.
  - cbn [fold_left List.length]. rewrite Nat.add_0_r. exact H.
  - cbn [fold_left List.length].
    replace (k + S (List.length rows) * List.length range)%nat
      with ((k + List.length range) + List.length rows * List.length range)%nat
      by lia.
    apply IH, mesh_row, H.
Qed.

Lemma mesh_returns :
  exists m : list mesh_point,
    mesh s e n = Ok m /\ List.length m = (51 * 51)%nat /\
    Forall (fun m => 0 <= amount m <= 1) m.
Proof.
  unfold mesh. rewrite tiles.
  destruct (@mesh_rows (seq 0 51) (seq 0 51) 0 (Ok ([], 0)))
    as (l & y & H & Hl & Hf & _).
  { exists [], 0. repeat split; [constructor | lra]. }
  rewrite H. cbn [bind fst]. exists l. rewrite Hl, !length_seq.
  split; [reflexivity |]. split; [reflexivity | exact Hf].
Qed.

End Mesh.

(** X22: In every state the sketch can be brought to, [draw] on the canvas
    of [setup] paints the whole mesh of 51 by 51 points and meets no
    division by zero, however the noise was seeded and whatever the
    mouse did, unless the right button is down before any click was
    recorded: each color is mixed with an amount between 0 and 1. *)
Theorem draw_paints_the_mesh (n0 : noise_state) (st : sketch * noise_state)
    (e : environment) :
  (forall n o f x y, 0 <= noise n o f x y) ->
  reachable n0 st -> width e = 600 -> height e = 600 ->
  (mouseIsPressed e = true -> mouseButton e = RIGHT ->
   clickRotationX (fst st) <> None) ->
  exists (s' : sketch) (m : list mesh_point),
    draw (fst st) e (snd st) = Ok (s', m) /\
    List.length m = (51 * 51)%nat /\
    Forall (fun m => 0 <= amount m <= 1) m.
Proof.
  intros Hnoise Hst Hw Hh Hclick.
  destruct (reachable_constants Hst) as (Ht & Hth & Hc).
  destruct st as [s n]. cbn [fst snd] in *.
  assert (Hturn : exists s', turn s e = Ok s').
  { unfold turn.
    destruct (mouseIsPressed e) eqn:Hp; cbn [andb].
    - destruct (mouseButton e) eqn:Hb.
      + cbn [bind]. eexists. reflexivity.
      + rewrite Hw, Hh. cbn [Qeq_bool orb].
        change (Qeq_bool 600 0) with false. cbv iota.
        destruct (clickRotationX s) as [crx |] eqn:Hx;
          [| destruct (Hclick eq_refl eq_refl eq_refl)].
        destruct (clickRotationZ s) as [crz |] eqn:Hz;
          [| destruct Hc as [_ Hc]; discriminate (Hc eq_refl)].
        cbn [number bind]. eexists. reflexivity.
      + cbn [bind]. eexists. reflexivity.
    - cbn [bind]. eexists. reflexivity. }
  destruct Hturn as [s' Hturn].
  destruct (turn_keeps _ _ Hturn) as (Ht' & Hth' & _).
  destruct (@mesh_returns s' e n Hnoise) as (m & Hm & Hl & Hf);
    [congruence | congruence |].
  exists s', m. unfold draw. rewrite Hturn. cbn [bind]. rewrite Hm.
  split; [reflexivity |]. split; assumption.
Qed.

(** [draw] in a state the sketch can be brought to: it returns, or the
    right button is down and no click was recorded. *)
Lemma draw_outcome (n0 : noise_state) (st : sketch * noise_state)
    (e : environment) :
  (forall n o f x y, 0 <= noise n o f x y) ->
  reachable n0 st -> width e = 600 -> height e = 600 ->
  (exists r, draw (fst st) e (snd st) = Ok r) \/
  (draw (fst st) e (snd st) = NonFinite /\
   mouseIsPressed e = true /\ mouseButton e = RIGHT /\
   clickRotationX (fst st) = None).
Proof.
  intros Hnoise Hst Hw Hh.
  destruct (reachable_constants Hst) as (Ht & Hth & Hc).
  destruct st as [s n]. cbn [fst snd] in *.
  assert (Hturn : (exists s', turn s e = Ok s') \/
                  (turn s e = NonFinite /\ mouseIsPressed e = true /\
                   mouseButton e = RIGHT /\ clickRotationX s = None)).
  { unfold turn.
    destruct (mouseIsPressed e) eqn:Hp; cbn [andb].
    - destruct (mouseButton e) eqn:Hb.
      + cbn [bind]. left. eexists. reflexivity.
      + rewrite Hw, Hh. cbn [Qeq_bool orb].
        change (Qeq_bool 600 0) with false. cbv iota.
        destruct (clickRotationX s) as [crx |] eqn:Hx.
        * destruct (clickRotationZ s) as [crz |] eqn:Hz;
            [| destruct Hc as [_ Hc]; discriminate (Hc eq_refl)].
          cbn [number bind]. left. eexists. reflexivity.
        * right. cbn [number bind]. auto.
      + cbn [bind]. left. eexists. reflexivity.
    - cbn [bind]. left. eexists. reflexivity. }
  destruct Hturn as [[s' Hturn] | (Hturn & Hrest)].
  - destruct (turn_keeps _ _ Hturn) as (Ht' & Hth' & _).
    destruct (@mesh_returns s' e n Hnoise) as (m & Hm & Hl & Hf);
      [congruence | congruence |].
    left. exists (s', m). unfold draw. rewrite Hturn. cbn [bind]. rewrite Hm.
    reflexivity.
  - right. unfold draw. rewrite Hturn. cbn [bind]. auto.
Qed.

(** A call that returned and left no click recorded was no click, and
    none was recorded before it. *)
Lemma call_keeps_click (ev : event) (e : environment)
    (st st' : sketch * noise_state) :
  call ev e st = Ok st' -> clickRotationX (fst st') = None ->
  ev <> MousePressed /\ clickRotationX (fst st) = None.
Proof.
  destruct st as [s n]. destruct ev; cbn [call fst snd]; intros H Hnone.
  - bind_ok H. injection H as <-. destruct a as [s' m].
    apply draw_turns, turn_keeps in E. cbn [fst] in Hnone.
    destruct E as (_ & _ & _ & _ & E & _). split; [discriminate | congruence].
  - injection H as <-. discriminate Hnone.
  - injection H as <-. split; [discriminate | exact Hnone].
Qed.

(** A run from a state the sketch can be brought to ends in such a
    state, or stopped at a [draw] with the right button down that no click
    came before. *)
Lemma run_outcome (n0 : noise_state) (calls : list (event * environment)) :
  (forall n o f x y, 0 <= noise n o f x y) ->
  Forall (fun c => width (snd c) = 600 /\ height (snd c) = 600) calls ->
  forall st, reachable n0 st ->
  match run calls st with
  | Ok st' => reachable n0 st'
  | Throw _ => False
  | NonFinite =>
      clickRotationX (fst st) = None /\
      exists before e after,
        calls = before ++ (Draw, e) :: after /\
        existsb is_click before = false /\
        mouseIsPressed e = true /\ mouseButton e = RIGHT
  end.
Proof.
  intros Hnoise. induction 1 as [| [ev e] rest [Hw Hh] _ IH]; intros st Hst.
  - exact Hst.
  - cbn [snd] in Hw, Hh. cbn [run].
    destruct (call ev e st) as [st1 | err |] eqn:Hcall; cbn [bind].
    + pose proof (after_call ev e Hst Hw Hh Hcall) as Hst1.
      specialize (IH st1 Hst1).
      destruct (run rest st1) as [st' | err |]; [exact IH | exact IH |].
      destruct IH as (Hnone & before & e' & after & -> & Hb & Hp & Hr).
      destruct (call_keeps_click _ _ _ Hcall Hnone) as (Hev & Hnone').
      split; [exact Hnone' |].
      exists ((ev, e) :: before), e', after.
      split; [reflexivity |]. split; [| split; assumption].
      cbn [existsb]. rewrite Hb. unfold is_click. cbn [fst].
      destruct ev; [reflexivity | destruct (Hev eq_refl) | reflexivity].
    + destruct ev; cbn [call] in Hcall; [| discriminate Hcall ..].
      destruct (draw_outcome e Hnoise Hst Hw Hh) as [[r Hr] | (Hr & _)];
        rewrite Hr in Hcall; discriminate Hcall.
    + destruct ev; cbn [call] in Hcall; [| discriminate Hcall ..].
      destruct (draw_outcome e Hnoise Hst Hw Hh)
        as [[r Hr] | (Hr & Hp & Hb & Hnone)].
      * rewrite Hr in Hcall. discriminate Hcall.
      * split; [exact Hnone |]. exists [], e, rest. repeat split; assumption.
Qed.

(** X21: The landscape never tips over.  After [setup] and any calls of
    [draw], [mousePressed] and [keyReleased] on the canvas of [setup],
    whatever the mouse and the keys did, [rotationX] and its target lie
    between [-HALF_PI] and [HALF_PI], [falloff] lies between 0 and 1 and
    [octaves] is not below 0; or else one of the calls was a [draw] with
    the right button down that no [mousePressed] came before: that
    [draw] computes with the rotation of a click that was never
    recorded, and from then on the rotation is not a number.  Nothing
    throws. *)
Theorem landscape_never_tips_over (n0 : noise_state)
    (calls : list (event * environment)) :
  0 <= PI ->
  (forall n o f x y, 0 <= noise n o f x y) ->
  Forall (fun c => width (snd c) = 600 /\ height (snd c) = 600) calls ->
  match run calls (setup, n0) with
  | Ok st =>
      - HALF_PI <= rotationX (fst st) <= HALF_PI /\
      - HALF_PI <= targetRotationX (fst st) <= HALF_PI /\
      0 <= falloff (fst st) <= 1 /\ 0 <= octaves (fst st)
  | Throw _ => False
  | NonFinite =>
      exists before e after,
        calls = before ++ (Draw, e) :: after /\
        existsb is_click before = false /\
        mouseIsPressed e = true /\ mouseButton e = RIGHT
  end.
Proof.
  intros Hpi Hnoise Hcalls.
  pose proof (run_outcome Hnoise Hcalls (after_setup n0)) as H.
  destruct (run calls (setup, n0)) as [st | err |].
  - apply (reachable_in_range Hpi H).
  - exact H.
  - apply H.
Qed.

End SketchProperties.

Lemma landscape_never_tips_over_witness :
  let p5 := M_1_4_01.sample_p5 in
  let click := M_1_4_01.Environment 600 600 true M_1_4_01.RIGHT 300 20 0 "" in
  let drag := M_1_4_01.Environment 600 600 true M_1_4_01.RIGHT 310 420 0 "" in
  let up := M_1_4_01.Environment 600 600 false M_1_4_01.LEFT 310 420
              M_1_4_01.UP_ARROW "" in
  match M_1_4_01.run [(M_1_4_01.MousePressed, click); (M_1_4_01.Draw, drag);
                      (M_1_4_01.KeyReleased, up)]
                     (M_1_4_01.setup, 0%Z) with
  | Ok st =>
      - M_1_4_01.HALF_PI <= M_1_4_01.rotationX (fst st) <= M_1_4_01.HALF_PI /\
      - M_1_4_01.HALF_PI <= M_1_4_01.targetRotationX (fst st)
        <= M_1_4_01.HALF_PI /\
      0 <= M_1_4_01.falloff (fst st) <= 1 /\ 0 <= M_1_4_01.octaves (fst st)
  | _ => False
  end.
Proof.
  intros p5 click drag up.
  pose proof (@landscape_never_tips_over p5 0%Z
                [(M_1_4_01.MousePressed, click); (M_1_4_01.Draw, drag);
                 (M_1_4_01.KeyReleased, up)]) as H.
  destruct (M_1_4_01.run _ _) eqn:E.
  - apply H.
    + vm_compute. discriminate.
    + intros n o f x y. apply sample_noise_range.
    + repeat constructor.
  - vm_compute in E. discriminate E.
  - vm_compute in E. discriminate E.
Defined.

(** The run that is excepted: a [draw] with the right button down before
    any click. *)
Example draw_before_any_click :
  let p5 := M_1_4_01.sample_p5 in
  M_1_4_01.run
    [(M_1_4_01.Draw,
      M_1_4_01.Environment 600 600 true M_1_4_01.RIGHT 300 20 0 "")]
    (M_1_4_01.setup, 0%Z)
  = NonFinite.
Proof.
  reflexivity.
Qed.

Lemma draw_paints_the_mesh_witness :
  let p5 := M_1_4_01.sample_p5 in
  let e := M_1_4_01.Environment 600 600 true M_1_4_01.LEFT 300 20 0 "" in
  exists (s' : M_1_4_01.sketch) (m : list M_1_4_01.mesh_point),
    M_1_4_01.draw M_1_4_01.setup e 0%Z = Ok (s', m) /\
    List.length m = (51 * 51)%nat /\
    Forall (fun m => 0 <= M_1_4_01.amount m <= 1) m.
Proof.
  apply (@draw_paints_the_mesh M_1_4_01.sample_p5 0%Z
           (M_1_4_01.setup, 0%Z)
           (M_1_4_01.Environment 600 600 true M_1_4_01.LEFT 300 20 0 "")).
  - intros n o f x y. apply sample_noise_range.
  - exact (@M_1_4_01.after_setup M_1_4_01.sample_p5 0%Z).
  - reflexivity.
  - reflexivity.
  - intros _ H. discriminate H.
Defined.
